(** * PyAPI Studio: the variable resolver ([src/core/variable_resolver.py])

    A shallow embedding of [VariableResolver] and of the pieces of the
    Python library it relies on (the compiled pattern
    [VARIABLE_PATTERN = re.compile(r'\{\{([^}]+)\}\}')], [str.strip],
    [dict] subscripting), followed by the properties of the resolver. *)

From Stdlib Require Import NArith String Ascii List Lia.
From Stdlib Require Import Floats.PrimFloat.
From stdpp Require Import gmap list fin_maps.

Local Open Scope N_scope.

(** ** Python strings

    A Python [str] is a sequence of Unicode code points; a code point is
    an [N]. *)

Module PyStr.

Abbreviation char := N (only parsing).
Abbreviation pystr := (list N) (only parsing).

(** Reading a string literal: each character stands for its code point. *)
Fixpoint py (s : string) : pystr :=
  match s with
  | EmptyString => []
  | String a s' => N_of_ascii a :: py s'
  end.

Definition lbrace : char := 123.
Definition rbrace : char := 125.

(** [str.isspace] on one character: the code points CPython treats as
    whitespace, which are the ones [str.strip()] removes. *)
Definition isspace (c : char) : bool :=
  ((9 <=? c) && (c <=? 13)) || ((28 <=? c) && (c <=? 32))
  || (c =? 133) || (c =? 160) || (c =? 5760)
  || ((8192 <=? c) && (c <=? 8202))
  || (c =? 8232) || (c =? 8233) || (c =? 8239) || (c =? 8287)
  || (c =? 12288).

Fixpoint lstrip (s : pystr) : pystr :=
  match s with
  | [] => []
  | c :: s' => if isspace c then lstrip s' else s
  end.

Definition rstrip (s : pystr) : pystr := reverse (lstrip (reverse s)).

(** [s.strip()] *)
Definition strip (s : pystr) : pystr := rstrip (lstrip s).

End PyStr.
Export PyStr.

(** ** Exceptions

    The only operations of the resolver that can raise are a [dict]
    subscript on a missing key and a replacement callback that raises
    inside [Pattern.sub]. *)

Inductive exn := KeyError (key : pystr).

Inductive result (A : Type) :=
| Ok (a : A)
| Raise (e : exn).
Arguments Ok {A} a.
Arguments Raise {A} e.

#[global] Instance result_bind : MBind result :=
  fun A B (k : A -> result B) (r : result A) =>
    match r with
    | Ok a => k a
    | Raise e => Raise e
    end.

(** [d[k]] *)
Definition getitem {V} (d : gmap (list N) V) (k : pystr) : result V :=
  match d !! k with
  | Some v => Ok v
  | None => Raise (KeyError k)
  end.

(** [k in d] *)
Definition contains {V} (d : gmap (list N) V) (k : pystr) : bool :=
  bool_decide (is_Some (d !! k)).

(** ** The pattern [\{\{([^}]+)\}\}] *)

Module Pattern.

(** The longest prefix of characters other than [}], and what follows
    it: the greedy [[^}]+]. *)
Fixpoint span_name (s : pystr) : pystr * pystr :=
  match s with
  | [] => ([], [])
  | c :: s' =>
      if c =? rbrace then ([], s)
      else let '(nm, r) := span_name s' in (c :: nm, r)
  end.

(** The pattern matched at the start of [s]: group 1 and the text after
    the match.  Giving characters back from the greedy run cannot help,
    since the character after a shorter run is not [}]. *)
Definition match_at (s : pystr) : option (pystr * pystr) :=
  match s with
  | c1 :: c2 :: s' =>
      if (c1 =? lbrace) && (c2 =? lbrace) then
        match span_name s' with
        | ((_ :: _) as nm, d1 :: d2 :: r) =>
            if (d1 =? rbrace) && (d2 =? rbrace) then Some (nm, r) else None
        | _ => None
        end
      else None
  | _ => None
  end.

(** The text cut at the non-overlapping matches, left to right: a
    character outside any match, or a match with its group 1. *)
Inductive segment :=
| Lit (c : char)
| Tok (raw : pystr).

(** The scan of [Pattern.finditer]: at a position not covered by an
    earlier match the pattern is tried; a match of group [nm] covers
    [length nm + 4] characters, so the next [length nm + 3] positions
    are skipped. *)
Fixpoint scan (skip : nat) (s : pystr) : list segment :=
  match s with
  | [] => []
  | c :: s' =>
      match skip with
      | S k => scan k s'
      | O =>
          match match_at s with
          | Some (nm, _) => Tok nm :: scan (length nm + 3) s'
          | None => Lit c :: scan 0 s'
          end
      end
  end.

Definition segments (s : pystr) : list segment := scan 0 s.

(** [pattern.findall(s)]: group 1 of every match. *)
Definition findall (s : pystr) : list pystr :=
  omap (fun sg => match sg with Tok raw => Some raw | Lit _ => None end)
       (segments s).

(** [pattern.sub(repl, s)] with a callable [repl], which receives the
    match (here its group 1) and may raise. *)
Fixpoint sub_segments (repl : pystr -> result pystr) (l : list segment)
  : result pystr :=
  match l with
  | [] => Ok []
  | Lit c :: l' => rest ← sub_segments repl l'; Ok (c :: rest)
  | Tok raw :: l' =>
      v ← repl raw; rest ← sub_segments repl l'; Ok (v ++ rest)
  end.

Definition sub (repl : pystr -> result pystr) (s : pystr) : result pystr :=
  sub_segments repl (segments s).

End Pattern.

(** ** The resolver *)

(** [@dataclass class Variable] ([Variable] is a reserved word here). *)
Record Variable_ := {
  key : pystr;
  value : pystr;
  is_secret : bool;
  environment_id : option Z
}.

(** The fields of a [VariableResolver] instance. *)
Record VariableResolver := {
  _global_variables : gmap (list N) Variable_;
  _environment_variables : gmap (list N) Variable_;
  _runtime_variables : gmap (list N) (list N)
}.

(** A value a caller can put in the dictionary given to [resolve_dict]. *)
#[warnings="-register-all"]
Inductive pyval :=
| VNone
| VBool (b : bool)
| VInt (z : Z)
| VStr (s : pystr)
| VList (l : list pyval).

Definition __init__ : VariableResolver :=
  {| _global_variables := ∅;
     _environment_variables := ∅;
     _runtime_variables := ∅ |}.

Definition set_global_variables (self : VariableResolver)
    (variables : gmap (list N) Variable_) : VariableResolver :=
  {| _global_variables := variables;
     _environment_variables := _environment_variables self;
     _runtime_variables := _runtime_variables self |}.

Definition set_environment_variables (self : VariableResolver)
    (variables : gmap (list N) Variable_) : VariableResolver :=
  {| _global_variables := _global_variables self;
     _environment_variables := variables;
     _runtime_variables := _runtime_variables self |}.

Definition set_runtime_variable (self : VariableResolver)
    (k v : pystr) : VariableResolver :=
  {| _global_variables := _global_variables self;
     _environment_variables := _environment_variables self;
     _runtime_variables := <[k := v]> (_runtime_variables self) |}.

Definition clear_runtime (self : VariableResolver) : VariableResolver :=
  {| _global_variables := _global_variables self;
     _environment_variables := _environment_variables self;
     _runtime_variables := ∅ |}.

(** [f"{{{{{var_name}}}}}"] *)
Definition unresolved_token (var_name : pystr) : pystr :=
  lbrace :: lbrace :: var_name ++ [rbrace; rbrace].

Definition _get_value (self : VariableResolver) (var_name : pystr)
  : result pystr :=
  if contains (_runtime_variables self) var_name then
    getitem (_runtime_variables self) var_name
  else if contains (_environment_variables self) var_name then
    var ← getitem (_environment_variables self) var_name; Ok (value var)
  else if contains (_global_variables self) var_name then
    var ← getitem (_global_variables self) var_name; Ok (value var)
  else
    Ok (unresolved_token var_name).

(** The local function [replacer] of [resolve]. *)
Definition replacer (self : VariableResolver) (group1 : pystr)
  : result pystr :=
  let var_name := strip group1 in
  _get_value self var_name.

Definition resolve (self : VariableResolver) (text : pystr) : result pystr :=
  match text with
  | [] => Ok text
  | _ => Pattern.sub (replacer self) text
  end.

(** [resolve_dict]: the loop over [data.items()], one entry at a time. *)
Definition resolve_entry (self : VariableResolver) (v : pyval) : result pyval :=
  match v with
  | VStr s => r ← resolve self s; Ok (VStr r)
  | _ => Ok v
  end.

Definition resolve_dict `{Countable K} (self : VariableResolver)
    (data : gmap K pyval) : result (gmap K pyval) :=
  map_fold
    (fun k v acc =>
       res ← acc; v' ← resolve_entry self v; Ok (<[k := v']> res))
    (Ok ∅) data.

(** [list(set(matches))]: the distinct elements, in an order the language
    leaves open. *)
Definition list_of_set (l : list pystr) : list pystr :=
  elements (list_to_set l : gset (list N)).

Definition get_unresolved_variables (self : VariableResolver) (text : pystr)
  : result (list pystr) :=
  resolved ← resolve self text;
  let matches := Pattern.findall resolved in
  Ok (list_of_set matches).

Definition validate (self : VariableResolver) (text : pystr)
  : result (bool * list pystr) :=
  unresolved ← get_unresolved_variables self text;
  Ok (Nat.eqb (length unresolved) 0, unresolved).

Definition get_all_variables (self : VariableResolver) : gmap (list N) (list N) :=
  let result0 : gmap (list N) (list N) := ∅ in
  let result1 :=
    map_fold (fun k var acc => <[k := value var]> acc)
             result0 (_global_variables self) in
  let result2 :=
    map_fold (fun k var acc => <[k := value var]> acc)
             result1 (_environment_variables self) in
  _runtime_variables self ∪ result2.

(** ** Auxiliary notions used in the statements *)

(** The value bound to a name, by the documented priority
    (runtime > environment > global), if any scope binds it. *)
Definition bound_value (self : VariableResolver) (name : pystr)
  : option pystr :=
  match _runtime_variables self !! name with
  | Some v => Some v
  | None =>
      match _environment_variables self !! name with
      | Some var => Some (value var)
      | None => value <$> _global_variables self !! name
      end
  end.

(** What one segment of the text contributes to the output of [resolve]. *)
Definition expand (self : VariableResolver) (sg : Pattern.segment) : pystr :=
  match sg with
  | Pattern.Lit c => [c]
  | Pattern.Tok raw =>
      default (unresolved_token (strip raw)) (bound_value self (strip raw))
  end.

(** The text [resolve] returns (see [resolve_ok]). *)
Definition resolved_text (self : VariableResolver) (text : pystr) : pystr :=
  flat_map (expand self) (Pattern.segments text).

(** A name the pattern can capture: not empty, and without [}]. *)
Definition capturable (raw : pystr) : Prop := raw ≠ [] ∧ (rbrace ∉ raw).

(** All the suffixes of a text, the longest first. *)
Fixpoint suffixes (s : pystr) : list pystr :=
  match s with
  | [] => [[]]
  | _ :: s' => s :: suffixes s'
  end.

(** The pattern matches somewhere in the text. *)
Definition contains_token (s : pystr) : bool :=
  existsb (fun t => bool_decide (is_Some (Pattern.match_at t))) (suffixes s).

(** A value that is not empty and has no brace in it. *)
Definition plain (v : pystr) : Prop :=
  v ≠ [] ∧ (lbrace ∉ v) ∧ (rbrace ∉ v).

(** Every value stored in the three mappings is [plain]. *)
Definition plain_values (self : VariableResolver) : Prop :=
  map_Forall (fun _ v => plain v) (_runtime_variables self)
  ∧ map_Forall (fun _ var => plain (value var)) (_environment_variables self)
  ∧ map_Forall (fun _ var => plain (value var)) (_global_variables self).

(** The name is a key of one of the three mappings. *)
Definition in_some_mapping (self : VariableResolver) (name : pystr) : bool :=
  contains (_runtime_variables self) name
  || contains (_environment_variables self) name
  || contains (_global_variables self) name.

(** How one segment of a text shows up when the output of [resolve] is
    scanned again: a substituted value as plain characters, a token left
    unresolved as a token around its trimmed name, or as four plain
    characters when that name is empty. *)
Definition rescan (self : VariableResolver) (sg : Pattern.segment)
  : list Pattern.segment :=
  match sg with
  | Pattern.Lit c => [Pattern.Lit c]
  | Pattern.Tok raw =>
      match bound_value self (strip raw) with
      | Some v => Pattern.Lit <$> v
      | None =>
          match strip raw with
          | [] => Pattern.Lit <$> unresolved_token []
          | name => [Pattern.Tok name]
          end
      end
  end.

(** The part [{{raw}}] of a text, between [pre] and [post], is taken as a
    token: the pattern captures [raw] there, after what it captures in
    [pre] and before what it captures in [post], and [resolve] returns
    the value looked up for the trimmed [raw] between [pre] and [post],
    each resolved on its own. *)
Definition recognized (self : VariableResolver) (pre raw post : pystr) : Prop :=
  let text := pre ++ unresolved_token raw ++ post in
  Pattern.findall text = Pattern.findall pre ++ raw :: Pattern.findall post
  ∧ resolve self text
    = (v ← _get_value self (strip raw);
       Ok (resolved_text self pre ++ v ++ resolved_text self post)).

#[global] Instance capturable_dec raw : Decision (capturable raw).
Proof. unfold capturable. apply _. Defined.

#[global] Instance plain_dec v : Decision (plain v).
Proof. unfold plain. apply _. Defined.

#[global] Instance plain_values_dec self : Decision (plain_values self).
Proof. unfold plain_values. apply _. Defined.

(** *** The claims of the specification, in its own words *)

(** "one or more characters not containing the two-character sequence
    [}}]": the interior of a token as the specification describes it. *)
Fixpoint has_rbrace_pair (s : pystr) : bool :=
  match s with
  | c :: (d :: _) as s' =>
      ((c =? rbrace) && (d =? rbrace)) || has_rbrace_pair s'
  | _ => false
  end.

Definition spec_token_interior (raw : pystr) : bool :=
  negb (bool_decide (raw = [])) && negb (has_rbrace_pair raw).

(** "the distinct trimmed token names occurring in text that are present
    in no mapping": the names the specification expects from
    [get_unresolved_variables]. *)
Definition spec_unresolved_names (self : VariableResolver) (text : pystr)
  : list pystr :=
  filter (fun name => in_some_mapping self name = false)
         (strip <$> Pattern.findall text).

(** What [resolve_dict] is to do with one value. *)
Definition resolved_value (self : VariableResolver) (v : pyval) : pyval :=
  match v with
  | VStr s => VStr (resolved_text self s)
  | _ => v
  end.

(** *** Sample resolvers *)

Definition variable (k v : string) : Variable_ :=
  {| key := py k; value := py v; is_secret := false; environment_id := None |}.

(** One name bound in the three scopes. *)
Definition three_scopes : VariableResolver :=
  {| _global_variables := {[ py "k" := variable "k" "glob" ]};
     _environment_variables := {[ py "k" := variable "k" "env" ]};
     _runtime_variables := {[ py "k" := py "run" ]} |}.

(** A value that is itself a token naming a bound variable. *)
Definition nested : VariableResolver :=
  set_runtime_variable
    (set_runtime_variable __init__ (py "a") (py "{{b}}")) (py "b") (py "x").

(** A key with a single [}] in it. *)
Definition odd_key : VariableResolver :=
  set_runtime_variable __init__ (py "a}b") (py "v").

(** The end-to-end scenario of the specification. *)
Definition scenario : VariableResolver :=
  set_environment_variables
    (set_global_variables __init__
       {[ py "base" := variable "base" "https://api.example.com" ]})
    {[ py "token" := variable "token" "abc123" ]}.

(** An empty value, and a value made of two opening braces. *)
Definition joining : VariableResolver :=
  set_runtime_variable
    (set_runtime_variable __init__ (py "a") []) (py "x") (py "y").

Definition opening : VariableResolver :=
  set_runtime_variable
    (set_runtime_variable __init__ (py "a") (py "{{")) (py "x") (py "y").

(** [a] set to ["v"] at run time. *)
Definition bound_a : VariableResolver :=
  set_runtime_variable __init__ (py "a") (py "v").

(** [token] set to ["v"] at run time. *)
Definition with_token : VariableResolver :=
  set_runtime_variable __init__ (py "token") (py "v").

(** [{"h": "{{token}}", "n": 42}] *)
Definition sample_dict : gmap (list N) pyval :=
  {[ py "h" := VStr (py "{{token}}"); py "n" := VInt 42 ]}.

(** ** The request panel, the sending of a request and the executor

    [src/ui/widgets/key_value_table.py], [src/ui/main_window.py] (the panel
    and [_send_request], which calls the resolver) and
    [src/core/request_executor.py] (what [execute] hands to the HTTP
    client). *)

(** *** More of [str], and the exceptions met here *)

(** [bool(s)] for a string *)
Definition truthy (s : pystr) : bool := negb (bool_decide (s = [])).

(** [s.startswith(prefix)] *)
Fixpoint str_startswith (s prefix : pystr) : bool :=
  match prefix, s with
  | [], _ => true
  | p :: prefix', c :: s' => (c =? p) && str_startswith s' prefix'
  | _ :: _, [] => false
  end.

(** [s.split(sep)] for a separator of one character *)
Fixpoint str_split (sep : N) (s : pystr) : list pystr :=
  match s with
  | [] => [[]]
  | c :: s' =>
      if c =? sep then [] :: str_split sep s'
      else match str_split sep s' with
           | piece :: pieces => (c :: piece) :: pieces
           | [] => [[c]]
           end
  end.

(** [s.split(sep, 1)]: cut at the first separator only *)
Fixpoint str_split1 (sep : N) (s : pystr) : list pystr :=
  match s with
  | [] => [[]]
  | c :: s' =>
      if c =? sep then [[]; s']
      else match str_split1 sep s' with
           | piece :: pieces => (c :: piece) :: pieces
           | [] => [[c]]
           end
  end.

(** [s.encode('utf-8')]: the bytes of one code point; a surrogate (and a
    number that is no code point) cannot be encoded. *)
Definition encode_char (c : N) : option (list N) :=
  if c <? 128 then Some [c]
  else if c <? 2048 then Some [192 + c / 64; 128 + c mod 64]
  else if (55296 <=? c) && (c <=? 57343) then None
  else if c <? 65536 then
    Some [224 + c / 4096; 128 + (c / 64) mod 64; 128 + c mod 64]
  else if c <? 1114112 then
    Some [240 + c / 262144; 128 + (c / 4096) mod 64;
          128 + (c / 64) mod 64; 128 + c mod 64]
  else None.

Fixpoint encode_utf8 (s : pystr) : option (list N) :=
  match s with
  | [] => Some []
  | c :: s' =>
      match encode_char c, encode_utf8 s' with
      | Some b, Some bs => Some (b ++ bs)
      | _, _ => None
      end
  end.

Inductive py_exn :=
| ValueError
| UnicodeEncodeError
| TypeError
| ResolverError (e : exn)
| OtherError (class_name : pystr).

Inductive attempt (A : Type) :=
| Returned (a : A)
| Crashed (e : py_exn).
Arguments Returned {A} a.
Arguments Crashed {A} e.

#[global] Instance attempt_bind : MBind attempt :=
  fun A B (k : A -> attempt B) (r : attempt A) =>
    match r with
    | Returned a => k a
    | Crashed e => Crashed e
    end.

Definition of_result {A} (r : result A) : attempt A :=
  match r with
  | Ok a => Returned a
  | Raise e => Crashed (ResolverError e)
  end.

(** *** [KeyValueTable] *)

Module KeyValueItem.

Record t := {
  key : pystr;
  value : pystr;
  enabled : bool;
  description : pystr
}.

(** [KeyValueItem()] *)
Definition new : t :=
  {| key := []; value := []; enabled := true; description := [] |}.

End KeyValueItem.

Module KeyValueTable.

(** One row of the [QTableWidget]: the check box of column 0 and the
    items of columns 1 to 3, any of which the table may lack. *)
Record row := {
  checkbox : option bool;
  key_item : option pystr;
  value_item : option pystr;
  desc_item : option pystr
}.

(** The table, with the number of [data_changed] signals emitted. *)
Record t := {
  _show_description : bool;
  table : list row;
  data_changed : nat
}.

Definition __init__ (show_description : bool) : t :=
  {| _show_description := show_description; table := []; data_changed := 0 |}.

Definition add_row (self : t) (item : option KeyValueItem.t) : t :=
  let item := default KeyValueItem.new item in
  let new_row :=
    {| checkbox := Some (KeyValueItem.enabled item);
       key_item := Some (KeyValueItem.key item);
       value_item := Some (KeyValueItem.value item);
       desc_item := if _show_description self
                    then Some (KeyValueItem.description item) else None |} in
  {| _show_description := _show_description self;
     table := table self ++ [new_row];
     data_changed := S (data_changed self) |}.

Definition remove_row (self : t) (row : Z) : t :=
  if ((0 <=? row) && (row <? Z.of_nat (length (table self))))%Z then
    {| _show_description := _show_description self;
       table := delete (Z.to_nat row) (table self);
       data_changed := S (data_changed self) |}
  else self.

Definition get_data (self : t) : list KeyValueItem.t :=
  (fun r =>
     {| KeyValueItem.key := default [] (key_item r);
        KeyValueItem.value := default [] (value_item r);
        KeyValueItem.enabled := default true (checkbox r);
        KeyValueItem.description :=
          if _show_description self then default [] (desc_item r) else [] |})
  <$> table self.

Definition set_data (self : t) (items : list KeyValueItem.t) : t :=
  foldl (fun tbl item => add_row tbl (Some item))
        {| _show_description := _show_description self;
           table := [];
           data_changed := data_changed self |}
        items.

(** The dictionary comprehension of [get_dict]: a later item replaces an
    earlier one with the same key. *)
Definition get_dict (self : t) : gmap (list N) (list N) :=
  foldl (fun d item =>
           if KeyValueItem.enabled item && truthy (KeyValueItem.key item)
           then <[KeyValueItem.key item := KeyValueItem.value item]> d
           else d)
        ∅ (get_data self).

Definition clear (self : t) : t :=
  {| _show_description := _show_description self;
     table := [];
     data_changed := S (data_changed self) |}.

End KeyValueTable.

(** *** [HttpMethod] and [RequestConfig] *)

Module HttpMethod.

Inductive t := GET | POST | PUT | PATCH | DELETE | HEAD | OPTIONS.

Definition value (m : t) : pystr :=
  py match m with
     | GET => "GET" | POST => "POST" | PUT => "PUT" | PATCH => "PATCH"
     | DELETE => "DELETE" | HEAD => "HEAD" | OPTIONS => "OPTIONS"
     end.

Definition members : list t := [GET; POST; PUT; PATCH; DELETE; HEAD; OPTIONS].

(** [HttpMethod(v)]: the member of that value; [ValueError] without one. *)
Definition of_value (v : pystr) : attempt t :=
  match List.find (fun m => bool_decide (value m = v)) members with
  | Some m => Returned m
  | None => Crashed ValueError
  end.

End HttpMethod.

Module RequestConfig.

(** The dictionaries hold Python values: [resolve_dict] returns such a
    dictionary, and it is stored back into the configuration. *)
Record t := {
  method : HttpMethod.t;
  url : pystr;
  headers : gmap (list N) pyval;
  params : gmap (list N) pyval;
  body : option pystr;
  body_type : pystr;
  timeout : float;
  verify_ssl : bool;
  follow_redirects : bool;
  auth : option (gmap (list N) pyval)
}.

End RequestConfig.

(** *** [UrlBar], [RequestPanel] and [MainWindow._send_request] *)

Module UrlBar.

(** The combo box holds the members of [HttpMethod]; the line edit holds
    any text. *)
Record t := {
  method_combo : HttpMethod.t;
  url_input : pystr;
  _is_sending : bool
}.

Definition method (self : t) : pystr := HttpMethod.value (method_combo self).

Definition url (self : t) : pystr := url_input self.

Definition set_url (self : t) (v : pystr) : t :=
  {| method_combo := method_combo self;
     url_input := v;
     _is_sending := _is_sending self |}.

Definition set_sending (self : t) (is_sending : bool) : t :=
  {| method_combo := method_combo self;
     url_input := url_input self;
     _is_sending := is_sending |}.

End UrlBar.

Module RequestPanel.

Record t := {
  url_bar : UrlBar.t;
  params_table : KeyValueTable.t;
  headers_table : KeyValueTable.t;
  body_editor : pystr
}.

Definition with_url_bar (self : t) (bar : UrlBar.t) : t :=
  {| url_bar := bar;
     params_table := params_table self;
     headers_table := headers_table self;
     body_editor := body_editor self |}.

Definition get_request_config (self : t) : attempt RequestConfig.t :=
  method ← HttpMethod.of_value (UrlBar.method (url_bar self));
  let url := UrlBar.url (url_bar self) in
  let headers := KeyValueTable.get_dict (headers_table self) in
  let params := KeyValueTable.get_dict (params_table self) in
  let body := body_editor self in
  let body_type := if truthy (strip body) then py "json" else py "none" in
  Returned
    {| RequestConfig.method := method;
       RequestConfig.url := url;
       RequestConfig.headers := VStr <$> headers;
       RequestConfig.params := VStr <$> params;
       RequestConfig.body := if truthy (strip body) then Some body else None;
       RequestConfig.body_type := body_type;
       RequestConfig.timeout := 30%float;
       RequestConfig.verify_ssl := true;
       RequestConfig.follow_redirects := true;
       RequestConfig.auth := None |}.

End RequestPanel.

Module MainWindow.

Record t := {
  request_panel : RequestPanel.t;
  _resolver : VariableResolver;
  _is_sending : bool
}.

(** How [_send_request] ends: at once when a request is under way, with
    the warning "Please enter a URL", or with the window in its sending
    state and the configuration given to [do_request]. *)
Inductive outcome :=
| Ignored
| Warned
| Dispatched (self : t) (config : RequestConfig.t).

Definition _send_request (self : t) : attempt outcome :=
  if _is_sending self then Returned Ignored
  else
    let panel := request_panel self in
    let url := strip (UrlBar.url (RequestPanel.url_bar panel)) in
    if negb (truthy url) then Returned Warned
    else
      let '(url, panel) :=
        if negb (str_startswith url (py "http://")
                 || str_startswith url (py "https://"))
        then
          let url := py "https://" ++ url in
          (url, RequestPanel.with_url_bar panel
                  (UrlBar.set_url (RequestPanel.url_bar panel) url))
        else (url, panel) in
      let panel :=
        RequestPanel.with_url_bar panel
          (UrlBar.set_sending (RequestPanel.url_bar panel) true) in
      config ← RequestPanel.get_request_config panel;
      url ← of_result (resolve (_resolver self) url);
      headers ← of_result
                  (resolve_dict (_resolver self) (RequestConfig.headers config));
      params ← of_result
                 (resolve_dict (_resolver self) (RequestConfig.params config));
      body ← match RequestConfig.body config with
              | Some b =>
                  if truthy b
                  then b' ← of_result (resolve (_resolver self) b);
                       Returned (Some b')
                  else Returned (Some b)
              | None => Returned None
              end;
      Returned
        (Dispatched
           {| request_panel := panel;
              _resolver := _resolver self;
              _is_sending := true |}
           {| RequestConfig.method := RequestConfig.method config;
              RequestConfig.url := url;
              RequestConfig.headers := headers;
              RequestConfig.params := params;
              RequestConfig.body := body;
              RequestConfig.body_type := RequestConfig.body_type config;
              RequestConfig.timeout := RequestConfig.timeout config;
              RequestConfig.verify_ssl := RequestConfig.verify_ssl config;
              RequestConfig.follow_redirects :=
                RequestConfig.follow_redirects config;
              RequestConfig.auth := RequestConfig.auth config |}).

End MainWindow.

(** *** [HttpxRequestExecutor] *)

(** A key of a dictionary: a hashable value.  [True] and [1], and [False]
    and [0], are equal and have one hash: they are one key. *)
Inductive pykey :=
| KNone
| KInt (z : Z)
| KStr (s : pystr).

#[global] Instance pykey_eq_dec : EqDecision pykey.
Proof. solve_decision. Defined.

#[global] Instance pykey_countable : Countable pykey.
Proof.
  refine (inj_countable'
            (fun k => match k with
                      | KNone => inl ()
                      | KInt z => inr (inl z)
                      | KStr s => inr (inr s)
                      end)
            (fun x => match x with
                      | inl _ => KNone
                      | inr (inl z) => KInt z
                      | inr (inr s) => KStr s
                      end) _).
  by intros [].
Defined.

#[global] Instance KStr_inj : Inj (=) (=) KStr.
Proof. intros s1 s2 Heq. by injection Heq. Defined.

(** The key that [d[v] = ...] writes to: [TypeError] for a list, which is
    not hashable. *)
Definition to_key (v : pyval) : attempt pykey :=
  match v with
  | VNone => Returned KNone
  | VBool b => Returned (KInt (if b then 1 else 0))
  | VInt z => Returned (KInt z)
  | VStr s => Returned (KStr s)
  | VList _ => Crashed TypeError
  end.

(** [v == s] for a value [v] and a string [s] *)
Definition eq_str (v : pyval) (s : pystr) : bool :=
  match v with
  | VStr t => bool_decide (t = s)
  | _ => false
  end.

Module RequestKwargs.

(** The keyword arguments of [client.request]; [json] is what
    [json.loads] returns and [httpx_auth] what [httpx.BasicAuth] builds.
    The keys of [headers] are those of the configuration, which are
    strings, and the one that [_build_auth] may add. *)
Record t {json httpx_auth : Type} := {
  method : pystr;
  url : pystr;
  headers : gmap pykey pyval;
  params : gmap (list N) pyval;
  timeout : float;
  follow_redirects : bool;
  content : option (list N);
  data : option (json + gmap (list N) (list N));
  auth : option httpx_auth
}.
Arguments t : clear implicits.

End RequestKwargs.

Section executor.
(** [json.loads], of the Python library: the value read, or nothing when
    it raises. *)
Context {json : Type} (json_loads : pystr -> option json).
(** The constructor [httpx.BasicAuth], of the httpx library: the object
    built, or the exception raised. *)
Context {httpx_auth : Type} (BasicAuth : pyval -> pyval -> attempt httpx_auth).
(** [str(v)] for a value that is no string, of the Python library. *)
Context (py_str : pyval -> pystr).

(** [f"{v}"]: a string as it is, another value as [str] has it. *)
Definition format_value (v : pyval) : pystr :=
  match v with
  | VStr s => s
  | _ => py_str v
  end.

Definition _parse_form_data (body : pystr)
  : attempt (json + gmap (list N) (list N)) :=
  match json_loads body with
  | Some parsed => Returned (inl parsed)
  | None =>
      pairs ← foldl
                (fun acc pair =>
                   d ← acc;
                   if bool_decide (61 ∈ pair) then
                     match str_split1 61 pair with
                     | [k; v] => Returned (<[k := v]> d)
                     | _ => Crashed ValueError
                     end
                   else Returned d)
                (Returned (∅ : gmap (list N) (list N)))
                (str_split 38 body);
      Returned (inr pairs)
  end.

(** [_build_auth]: the authentication object, and the [headers] dictionary
    it was given, which it may have written to.  The values of
    [auth_config] are of any type. *)
Definition _build_auth (auth_config : gmap (list N) pyval)
    (headers : gmap pykey pyval)
  : attempt (option httpx_auth * gmap pykey pyval) :=
  let auth_type := default VNone (auth_config !! py "type") in
  if eq_str auth_type (py "basic") then
    auth ← BasicAuth (default (VStr []) (auth_config !! py "username"))
                     (default (VStr []) (auth_config !! py "password"));
    Returned (Some auth, headers)
  else if eq_str auth_type (py "bearer") then
    let token := default (VStr []) (auth_config !! py "token") in
    Returned
      (None,
       <[KStr (py "Authorization") := VStr (py "Bearer " ++ format_value token)]>
         headers)
  else if eq_str auth_type (py "api_key") then
    let key := default (VStr []) (auth_config !! py "key") in
    let value := default (VStr []) (auth_config !! py "value") in
    let add_to := default (VStr (py "header")) (auth_config !! py "add_to") in
    if eq_str add_to (py "header") then
      k ← to_key key; Returned (None, <[k := value]> headers)
    else Returned (None, headers)
  else Returned (None, headers).

(** [headers["Content-Type"] = v] unless the key is there. *)
Definition content_type_default (v : pystr) (headers : gmap pykey pyval)
  : gmap pykey pyval :=
  if bool_decide (is_Some (headers !! KStr (py "Content-Type"))) then headers
  else <[KStr (py "Content-Type") := VStr v]> headers.

(** The block of [execute] that handles the body: the headers, with a
    [Content-Type] added where the code adds one, and the [content] or
    [data] argument, if any.  [encode] raises on a text it cannot encode. *)
Definition body_options (config : RequestConfig.t)
    (headers : gmap pykey pyval)
  : attempt (gmap pykey pyval * option (list N)
             * option (json + gmap (list N) (list N))) :=
  let body_type := RequestConfig.body_type config in
  let encode (body : pystr) : attempt (list N) :=
    match encode_utf8 body with
    | Some bytes => Returned bytes
    | None => Crashed UnicodeEncodeError
    end in
  match RequestConfig.body config with
  | Some body =>
      if truthy body && negb (bool_decide (body_type = py "none")) then
        if bool_decide (body_type = py "json") then
          content ← encode body;
          Returned (content_type_default (py "application/json") headers,
                    Some content, None)
        else if bool_decide (body_type = py "form") then
          data ← _parse_form_data body;
          Returned (headers, None, Some data)
        else if bool_decide (body_type = py "urlencoded") then
          data ← _parse_form_data body;
          Returned (content_type_default
                      (py "application/x-www-form-urlencoded") headers,
                    None, Some data)
        else
          content ← encode body;
          Returned (headers, Some content, None)
      else Returned (headers, None, None)
  | None => Returned (headers, None, None)
  end.

(** The block of [execute] that handles the authentication: nothing for
    a missing or empty [auth]; and an object of [httpx.BasicAuth] is true,
    as its class defines neither [__bool__] nor [__len__]. *)
Definition auth_options (config : RequestConfig.t)
    (headers : gmap pykey pyval)
  : attempt (option httpx_auth * gmap pykey pyval) :=
  match RequestConfig.auth config with
  | Some auth_config =>
      if Nat.eqb (size auth_config) 0 then Returned (None, headers)
      else _build_auth auth_config headers
  | None => Returned (None, headers)
  end.

(** The part of [execute] before the request is sent: the keyword
    arguments it builds from the configuration, on a copy of its
    headers. *)
Definition execute_kwargs (config : RequestConfig.t)
  : attempt (RequestKwargs.t json httpx_auth) :=
  '(headers, content, data) ←
    body_options config (kmap KStr (RequestConfig.headers config));
  '(auth, headers) ← auth_options config headers;
  Returned
    {| RequestKwargs.method := HttpMethod.value (RequestConfig.method config);
       RequestKwargs.url := RequestConfig.url config;
       RequestKwargs.headers := headers;
       RequestKwargs.params := RequestConfig.params config;
       RequestKwargs.timeout := RequestConfig.timeout config;
       RequestKwargs.follow_redirects := RequestConfig.follow_redirects config;
       RequestKwargs.content := content;
       RequestKwargs.data := data;
       RequestKwargs.auth := auth |}.

End executor.

(** An item as the table gives it back: the description is kept in a
    table that shows descriptions, and blank otherwise. *)
Definition as_stored (show_description : bool) (item : KeyValueItem.t)
  : KeyValueItem.t :=
  {| KeyValueItem.key := KeyValueItem.key item;
     KeyValueItem.value := KeyValueItem.value item;
     KeyValueItem.enabled := KeyValueItem.enabled item;
     KeyValueItem.description :=
       if show_description then KeyValueItem.description item else [] |}.

(** The test of [_send_request] on the trimmed URL. *)
Definition has_scheme (url : pystr) : bool :=
  str_startswith url (py "http://") || str_startswith url (py "https://").

(** The window [_send_request] leaves, and the configuration it hands
    over, when it sends (see [send_request_dispatched]). *)
Definition sent_window (self : MainWindow.t) : MainWindow.t :=
  let panel := MainWindow.request_panel self in
  let bar := RequestPanel.url_bar panel in
  let u := strip (UrlBar.url bar) in
  {| MainWindow.request_panel :=
       {| RequestPanel.url_bar :=
            {| UrlBar.method_combo := UrlBar.method_combo bar;
               UrlBar.url_input :=
                 if has_scheme u then UrlBar.url_input bar
                 else py "https://" ++ u;
               UrlBar._is_sending := true |};
          RequestPanel.params_table := RequestPanel.params_table panel;
          RequestPanel.headers_table := RequestPanel.headers_table panel;
          RequestPanel.body_editor := RequestPanel.body_editor panel |};
     MainWindow._resolver := MainWindow._resolver self;
     MainWindow._is_sending := true |}.

Definition sent_config (self : MainWindow.t) : RequestConfig.t :=
  let panel := MainWindow.request_panel self in
  let bar := RequestPanel.url_bar panel in
  let r := MainWindow._resolver self in
  let u := strip (UrlBar.url bar) in
  let body := RequestPanel.body_editor panel in
  {| RequestConfig.method := UrlBar.method_combo bar;
     RequestConfig.url :=
       resolved_text r (if has_scheme u then u else py "https://" ++ u);
     RequestConfig.headers :=
       resolved_value r
       <$> (VStr <$> KeyValueTable.get_dict (RequestPanel.headers_table panel));
     RequestConfig.params :=
       resolved_value r
       <$> (VStr <$> KeyValueTable.get_dict (RequestPanel.params_table panel));
     RequestConfig.body :=
       if truthy (strip body) then Some (resolved_text r body) else None;
     RequestConfig.body_type :=
       if truthy (strip body) then py "json" else py "none";
     RequestConfig.timeout := 30%float;
     RequestConfig.verify_ssl := true;
     RequestConfig.follow_redirects := true;
     RequestConfig.auth := None |}.

(** [sep.join(pieces)], and the text [key=value&key2=value2] of some
    pairs, as the comment in [_parse_form_data] writes it. *)
Fixpoint str_join (sep : pystr) (pieces : list pystr) : pystr :=
  match pieces with
  | [] => []
  | [piece] => piece
  | piece :: pieces' => piece ++ sep ++ str_join sep pieces'
  end.

Definition form_pair (kv : pystr * pystr) : pystr := kv.1 ++ 61 :: kv.2.

Definition form_text (kvs : list (pystr * pystr)) : pystr :=
  str_join [38] (form_pair <$> kvs).

(** One turn of the loop of [_parse_form_data] over the pairs, when
    nothing is raised. *)
Definition add_pair (d : gmap (list N) (list N)) (pair : pystr)
  : gmap (list N) (list N) :=
  if bool_decide (61 ∈ pair) then
    match str_split1 61 pair with
    | [k; v] => <[k := v]> d
    | _ => d
    end
  else d.



(** *** The history list and the line numbers of the editor

    [src/ui/widgets/history_panel.py] and [src/ui/widgets/code_editor.py]. *)

Module HistoryItem.

(** The text [_setup_display] gives an entry: [f"[{method}] {url}"], the
    URL cut short when it has more than 50 characters. *)
Definition text (method url : pystr) : pystr :=
  let url :=
    if (50 <? length url)%nat then take 47 url ++ py "..." else url in
  py "[" ++ method ++ py "] " ++ url.

End HistoryItem.

Module HistoryPanel.

Section list_widget.
Context {History : Type}.

(** [while count() > 100: takeItem(count() - 1)], a turn of the loop for
    each unit of [fuel]. *)
Fixpoint drop_excess (fuel : nat) (items : list History) : list History :=
  match fuel with
  | O => items
  | S fuel' =>
      if (100 <? length items)%nat
      then drop_excess fuel' (removelast items)
      else items
  end.

(** [add_history]: the list widget after [insertItem(0, item)] and the
    loop; the list has at most as many turns to make as it has items. *)
Definition add_history (items : list History) (history : History)
  : list History :=
  let items := history :: items in
  drop_excess (length items) items.

End list_widget.

End HistoryPanel.

Module CodeEditor.

(** [while max_num >= 10: max_num //= 10; digits += 1] *)
Fixpoint count_digits (fuel : nat) (max_num digits : Z) : Z :=
  match fuel with
  | O => digits
  | S fuel' =>
      if (10 <=? max_num)%Z
      then count_digits fuel' (max_num / 10)%Z (digits + 1)%Z
      else digits
  end.

(** [line_number_area_width], for a document of [block_count] blocks and
    a font in which the digit 9 is [advance] wide; the loop divides a
    number at most as many times as its value. *)
Definition line_number_area_width (block_count advance : Z) : Z :=
  let max_num := Z.max 1 block_count in
  let digits := count_digits (Z.to_nat max_num) max_num 1 in
  (3 + advance * digits + 10)%Z.

End CodeEditor.

(** *** Sample windows *)

Definition sample_table (rows : list (list N * list N * bool))
  : KeyValueTable.t :=
  KeyValueTable.set_data (KeyValueTable.__init__ false)
    ((fun '(k, v, e) =>
        {| KeyValueItem.key := k; KeyValueItem.value := v;
           KeyValueItem.enabled := e; KeyValueItem.description := [] |})
     <$> rows).

Definition sample_window (url body : string) : MainWindow.t :=
  {| MainWindow.request_panel :=
       {| RequestPanel.url_bar :=
            {| UrlBar.method_combo := HttpMethod.GET;
               UrlBar.url_input := py url;
               UrlBar._is_sending := false |};
          RequestPanel.params_table :=
            sample_table [(py "q", py "{{ token }}", true);
                          (py "debug", py "1", false)];
          RequestPanel.headers_table :=
            sample_table [(py "Content-Type", py "application/json", true);
                          (py "X-Key", py "{{token}}", true);
                          (py "X-Key", py "{{id}}", true)];
          RequestPanel.body_editor := py body |};
     MainWindow._resolver := scenario;
     MainWindow._is_sending := false |}.

(** A configuration as a caller of [execute] may build it. *)
Definition sample_config (body_type body : string)
    (auth : option (gmap (list N) pyval)) : RequestConfig.t :=
  {| RequestConfig.method := HttpMethod.POST;
     RequestConfig.url := py "https://api.example.com/items";
     RequestConfig.headers :=
       {[ py "Accept" := VStr (py "*/*");
          py "Authorization" := VStr (py "Basic dXNlcg==") ]};
     RequestConfig.params := ∅;
     RequestConfig.body := Some (py body);
     RequestConfig.body_type := py body_type;
     RequestConfig.timeout := 30%float;
     RequestConfig.verify_ssl := true;
     RequestConfig.follow_redirects := true;
     RequestConfig.auth := auth |}.

(** A [json.loads] that rejects every text. *)
Definition no_json (body : pystr) : option Empty_set := None.

(** A [httpx.BasicAuth] that keeps a user name and a password that are
    strings, and raises [TypeError] on anything else. *)
Definition basic_auth (username password : pyval) : attempt (pystr * pystr) :=
  match username, password with
  | VStr u, VStr p => Returned (u, p)
  | _, _ => Crashed TypeError
  end.

(** A [str] for [None] and the truth values; it is not asked about
    anything else in what follows. *)
Definition str_of_constant (v : pyval) : pystr :=
  match v with
  | VNone => py "None"
  | VBool true => py "True"
  | VBool false => py "False"
  | _ => []
  end.

(** ** Facts about [bind], [strip] and the pattern *)

Lemma bind_Ok {A B} (a : A) (k : A → result B) : Ok a ≫= k = k a.
Proof. done. Qed.

Section strip_facts.
Implicit Types (s t : list N) (c : N).

Lemma lstrip_elem_of c s : c ∈ lstrip s → c ∈ s.
Proof.
  induction s as [|d s IH]; simpl; [done|].
  destruct (isspace d); [|done]. intros H. right. by apply IH.
Qed.

Lemma rstrip_elem_of c s : c ∈ rstrip s → c ∈ s.
Proof.
  unfold rstrip. rewrite elem_of_reverse. intros H%lstrip_elem_of.
  by apply elem_of_reverse.
Qed.

Lemma strip_elem_of c s : c ∈ strip s → c ∈ s.
Proof. unfold strip. by intros H%rstrip_elem_of%lstrip_elem_of. Qed.

Lemma lstrip_idemp s : lstrip (lstrip s) = lstrip s.
Proof.
  induction s as [|d s IH]; simpl; [done|].
  destruct (isspace d) eqn:Hd; [done|]. simpl. by rewrite Hd.
Qed.

Lemma lstrip_snoc s c :
  isspace c = false → lstrip (s ++ [c]) = lstrip s ++ [c].
Proof.
  intros Hc. induction s as [|d s IH]; simpl; [by rewrite Hc|].
  by destruct (isspace d).
Qed.

Lemma rstrip_cons c s :
  isspace c = false → rstrip (c :: s) = c :: rstrip s.
Proof.
  intros Hc. unfold rstrip. simpl.
  by rewrite reverse_cons, lstrip_snoc, reverse_snoc.
Qed.

Lemma rstrip_idemp s : rstrip (rstrip s) = rstrip s.
Proof. unfold rstrip. by rewrite reverse_involutive, lstrip_idemp. Qed.

Lemma lstrip_head s :
  lstrip s = [] ∨ ∃ c t, lstrip s = c :: t ∧ isspace c = false.
Proof.
  induction s as [|d s IH]; simpl; [by left|].
  destruct (isspace d) eqn:Hd; [done|]. right. by exists d, s.
Qed.

(** Trimming a trimmed name changes nothing. *)
Lemma strip_idemp s : strip (strip s) = strip s.
Proof.
  unfold strip.
  destruct (lstrip_head s) as [->|(c & t & -> & Hc)]; [done|].
  rewrite rstrip_cons by done. simpl. rewrite Hc.
  by rewrite rstrip_cons, rstrip_idemp.
Qed.

Lemma strip_not_elem_of c s : c ∉ s → c ∉ strip s.
Proof. intros H Hin. by apply H, strip_elem_of. Qed.

End strip_facts.

Section pattern_facts.
Import Pattern.

Lemma span_name_split s :
  s = (span_name s).1 ++ (span_name s).2.
Proof.
  induction s as [|c s IH]; simpl; [done|].
  destruct (N.eqb_spec c rbrace); [done|].
  destruct (span_name s) as [nm r]; simpl in *. by f_equal.
Qed.

Lemma span_name_no_rbrace s : rbrace ∉ (span_name s).1.
Proof.
  induction s as [|c s IH]; simpl; [by apply not_elem_of_nil|].
  destruct (N.eqb_spec c rbrace); [by apply not_elem_of_nil|].
  destruct (span_name s) as [nm r]; simpl in *.
  rewrite not_elem_of_cons. split; [done|done].
Qed.

Lemma span_name_rest s :
  (span_name s).2 = [] ∨ ∃ r, (span_name s).2 = rbrace :: r.
Proof.
  induction s as [|c s IH]; simpl; [by left|].
  destruct (N.eqb_spec c rbrace) as [->|]; [right; by eexists|].
  destruct (span_name s) as [nm r]; simpl in *. done.
Qed.

Lemma span_name_app nm r :
  rbrace ∉ nm → span_name (nm ++ rbrace :: r) = (nm, rbrace :: r).
Proof.
  induction nm as [|c nm IH]; simpl; intros Hnm.
  - done.
  - apply not_elem_of_cons in Hnm as [Hc Hnm].
    destruct (N.eqb_spec c rbrace); [congruence|].
    by rewrite IH.
Qed.

Lemma span_name_all nm :
  rbrace ∉ nm → span_name nm = (nm, []).
Proof.
  induction nm as [|c nm IH]; simpl; intros Hnm; [done|].
  apply not_elem_of_cons in Hnm as [Hc Hnm].
  destruct (N.eqb_spec c rbrace); [congruence|].
  by rewrite IH.
Qed.

(** The pattern matches at the start of a text exactly when the text
    opens with [{{], a non-empty run without [}], and [}}]. *)
Lemma match_at_Some s raw r :
  match_at s = Some (raw, r) ↔
  s = lbrace :: lbrace :: raw ++ rbrace :: rbrace :: r ∧ capturable raw.
Proof.
  split.
  - destruct s as [|c1 [|c2 s]]; simpl; try done.
    destruct (N.eqb_spec c1 lbrace) as [->|]; simpl; [|done].
    destruct (N.eqb_spec c2 lbrace) as [->|]; simpl; [|done].
    pose proof (span_name_split s) as Hs.
    pose proof (span_name_no_rbrace s) as Hn.
    destruct (span_name s) as [[|n0 nm] [|d1 [|d2 r']]]; simpl in *; try done.
    destruct (N.eqb_spec d1 rbrace) as [->|]; simpl; [|done].
    destruct (N.eqb_spec d2 rbrace) as [->|]; simpl; [|done].
    intros [= <- <-]. split; [by rewrite Hs|]. by split.
  - intros [-> [Hne Hnr]]. simpl.
    rewrite (span_name_app raw (rbrace :: r) Hnr).
    destruct raw; [done|]. by rewrite N.eqb_refl.
Qed.

Lemma match_at_token raw r :
  capturable raw →
  match_at (lbrace :: lbrace :: raw ++ rbrace :: rbrace :: r) = Some (raw, r).
Proof. intros. by apply match_at_Some. Qed.

Lemma scan_skip k s : scan k s = scan 0 (drop k s).
Proof.
  revert k. induction s as [|c s IH]; intros [|k]; simpl; done.
Qed.

Lemma segments_cons c s :
  segments (c :: s) =
  match match_at (c :: s) with
  | Some (nm, _) => Tok nm :: scan (length nm + 3) s
  | None => Lit c :: segments s
  end.
Proof. done. Qed.

Lemma segments_nil : segments [] = [].
Proof. done. Qed.

Lemma segments_match s raw r :
  match_at s = Some (raw, r) → segments s = Tok raw :: segments r.
Proof.
  intros Hm. pose proof Hm as [-> _]%match_at_Some.
  rewrite segments_cons, Hm. f_equal.
  rewrite scan_skip. unfold segments. f_equal.
  replace (length raw + 3)%nat with (S (length raw + 2))%nat by lia.
  cbn [drop]. by rewrite drop_app_add.
Qed.

Lemma segments_no_match c s :
  match_at (c :: s) = None → segments (c :: s) = Lit c :: segments s.
Proof. intros Hm. by rewrite segments_cons, Hm. Qed.

(** Induction along the scan. *)
Lemma segments_ind (P : pystr → Prop) :
  P [] →
  (∀ s raw r, match_at s = Some (raw, r) → P r → P s) →
  (∀ c s, match_at (c :: s) = None → P s → P (c :: s)) →
  ∀ s, P s.
Proof.
  intros Hnil Hmatch Hlit s.
  induction (Nat.lt_wf_0_projected length s) as [s _ IH].
  destruct s as [|c s]; [done|].
  destruct (match_at (c :: s)) as [[raw r]|] eqn:Hm.
  - apply (Hmatch _ raw r Hm). apply IH.
    apply match_at_Some in Hm as [-> _].
    simpl. rewrite !length_app. simpl. lia.
  - apply Hlit; [done|]. apply IH. simpl. lia.
Qed.

Lemma match_at_not_lbrace c s : c ≠ lbrace → match_at (c :: s) = None.
Proof.
  intros Hc. destruct s as [|d s]; simpl; [done|].
  by destruct (N.eqb_spec c lbrace).
Qed.

Lemma match_at_not_lbrace2 c d s : d ≠ lbrace → match_at (c :: d :: s) = None.
Proof.
  intros Hd. simpl. destruct (N.eqb_spec d lbrace); [done|].
  by rewrite andb_false_r.
Qed.

Lemma lbrace_rbrace : lbrace ≠ rbrace.
Proof. done. Qed.

(** The first [}] of a text is where it is. *)
Lemma first_rbrace_inj u u' w w' :
  rbrace ∉ u → rbrace ∉ u' →
  u ++ rbrace :: w = u' ++ rbrace :: w' → u = u' ∧ w = w'.
Proof.
  intros Hu Hu' Heq.
  pose proof (span_name_app u w Hu) as H1.
  rewrite Heq, (span_name_app u' w' Hu') in H1. by simplify_eq.
Qed.

(** Characters before a token that hold no [{] are all literal. *)
Lemma segments_lit_prefix pre t :
  lbrace ∉ pre → segments (pre ++ t) = (Lit <$> pre) ++ segments t.
Proof.
  induction pre as [|c pre IH]; intros Hpre; [done|].
  apply not_elem_of_cons in Hpre as [Hc Hpre]. simpl.
  rewrite segments_no_match by (by apply match_at_not_lbrace).
  by rewrite IH.
Qed.

(** A text without [}] holds no token. *)
Lemma match_at_no_rbrace s : rbrace ∉ s → match_at s = None.
Proof.
  intros Hs. destruct (match_at s) as [[raw r]|] eqn:Hm; [|done].
  apply match_at_Some in Hm as [-> _]. exfalso. apply Hs.
  do 2 right. apply elem_of_app. right. by left.
Qed.

Lemma segments_no_rbrace s : rbrace ∉ s → segments s = Lit <$> s.
Proof.
  induction s as [|c s IH]; intros Hs; [done|].
  rewrite segments_no_match by (by apply match_at_no_rbrace).
  apply not_elem_of_cons in Hs as [_ Hs]. simpl. by rewrite IH.
Qed.

(** Up to a [}] that is not doubled there is no token either. *)
Lemma match_at_single_rbrace run w :
  rbrace ∉ run → head w ≠ Some rbrace →
  match_at (run ++ rbrace :: w) = None.
Proof.
  intros Hrun Hw.
  destruct (match_at (run ++ rbrace :: w)) as [[raw r]|] eqn:Hm; [|done].
  apply match_at_Some in Hm as [Heq [_ Hraw]]. exfalso.
  apply (first_rbrace_inj run (lbrace :: lbrace :: raw)) in Heq as [_ ->];
    [by apply Hw|done|].
  rewrite !not_elem_of_cons. by repeat split.
Qed.

Lemma segments_single_rbrace run w :
  rbrace ∉ run → head w ≠ Some rbrace →
  segments (run ++ rbrace :: w) = (Lit <$> run) ++ Lit rbrace :: segments w.
Proof.
  intros Hrun Hw. induction run as [|c run IH]; simpl.
  - by rewrite segments_no_match by (by apply match_at_not_lbrace).
  - rewrite segments_no_match
      by (by apply (match_at_single_rbrace (c :: run))).
    apply not_elem_of_cons in Hrun as [_ Hrun]. by rewrite IH.
Qed.

(** The three ways in which a text that opens with [{{] is not a match. *)
Lemma match_at_open_None_inv s :
  match_at (lbrace :: lbrace :: s) = None →
  rbrace ∉ s
  ∨ (∃ w, s = rbrace :: w)
  ∨ (∃ run w, s = run ++ rbrace :: w ∧ (rbrace ∉ run) ∧ head w ≠ Some rbrace).
Proof.
  intros Hm.
  pose proof (span_name_split s) as Hs.
  pose proof (span_name_no_rbrace s) as Hn.
  pose proof (span_name_rest s) as Hr.
  destruct (span_name s) as [run rest]; cbn [fst snd] in Hs, Hn, Hr.
  destruct Hr as [->|[w ->]].
  { left. by rewrite Hs, app_nil_r. }
  destruct run as [|c run]; [right; left; by exists w|].
  do 2 right. exists (c :: run), w. split_and!; [done..|].
  intros Hw. destruct w as [|d w]; [done|]. simpl in Hw. injection Hw as ->.
  rewrite Hs, (match_at_token (c :: run) w) in Hm; [done|by split].
Qed.

Lemma match_at_open_None_intro s :
  rbrace ∉ s
  ∨ (∃ w, s = rbrace :: w)
  ∨ (∃ run w, s = run ++ rbrace :: w ∧ (rbrace ∉ run) ∧ head w ≠ Some rbrace) →
  match_at (lbrace :: lbrace :: s) = None.
Proof.
  intros [Hs|[[w ->]|(run & w & -> & Hrun & Hw)]].
  - apply match_at_no_rbrace. rewrite !not_elem_of_cons. by repeat split.
  - done.
  - apply (match_at_single_rbrace (lbrace :: lbrace :: run)); [|done].
    rewrite !not_elem_of_cons. by repeat split.
Qed.

(** A match cannot start one character after a failed attempt at [{{]. *)
Lemma match_at_shift_None s :
  match_at (lbrace :: lbrace :: s) = None → match_at (lbrace :: s) = None.
Proof.
  intros Hm. destruct (match_at (lbrace :: s)) as [[raw r]|] eqn:Hm'; [|done].
  apply match_at_Some in Hm' as [Heq [Hne Hraw]]. simplify_eq.
  pose proof (match_at_token (lbrace :: raw) r) as Hm'.
  rewrite <- app_comm_cons, Hm in Hm'. enough (None = Some (lbrace :: raw, r)) by done.
  apply Hm'. split; [done|]. rewrite not_elem_of_cons. by split.
Qed.

(** A match does not depend on what follows it. *)
Lemma match_at_app s t raw r :
  match_at s = Some (raw, r) → match_at (s ++ t) = Some (raw, r ++ t).
Proof.
  intros [-> Hraw]%match_at_Some.
  rewrite <- !app_comm_cons, <- app_assoc, <- !app_comm_cons.
  by apply match_at_token.
Qed.

Lemma match_at_app_None s t : match_at (s ++ t) = None → match_at s = None.
Proof.
  intros Hm. destruct (match_at s) as [[raw r]|] eqn:Hs; [|done].
  by rewrite (match_at_app _ t _ _ Hs) in Hm.
Qed.

Lemma unresolved_token_app raw r :
  unresolved_token raw ++ r = lbrace :: lbrace :: raw ++ rbrace :: rbrace :: r.
Proof. unfold unresolved_token. by rewrite <- !app_comm_cons, <- app_assoc. Qed.

Lemma segments_token raw r :
  capturable raw →
  segments (unresolved_token raw ++ r) = Tok raw :: segments r.
Proof.
  intros Hraw. apply segments_match. rewrite unresolved_token_app.
  by apply match_at_token.
Qed.

(** Where the scan stands when it comes to a part [{{raw}}] of the text:
    at its start, and then it is the next match; or inside a longer match
    that began before it and ends with it. *)
Lemma segments_cut raw post pre :
  capturable raw →
  segments (pre ++ unresolved_token raw ++ post)
  = segments pre ++ Tok raw :: segments post
  ∨ ∃ before longer name,
      longer ≠ [] ∧ pre = before ++ longer
      ∧ unresolved_token name = longer ++ unresolved_token raw
      ∧ capturable name
      ∧ segments (pre ++ unresolved_token raw ++ post)
        = segments before ++ Tok name :: segments post.
Proof.
  intros Hraw.
  remember (pre ++ unresolved_token raw ++ post) as text eqn:Htext.
  revert pre Htext.
  induction text as [|s nm r Hm IH|c s Hm IH] using segments_ind;
    intros pre Htext.
  - by destruct pre.
  - pose proof Hm as [Hs Hnm]%match_at_Some.
    rewrite (segments_match _ _ _ Hm).
    destruct (decide (rbrace ∈ pre)) as [Hin|Hnin].
    + (* the match ends inside [pre] *)
      apply list_elem_of_split_l in Hin as (p1 & p2 & -> & Hp1).
      rewrite Hs, <- app_assoc in Htext. cbn [app] in Htext.
      apply (first_rbrace_inj (lbrace :: lbrace :: nm) p1) in Htext
        as [<- Hr]; [|by rewrite !not_elem_of_cons; destruct Hnm|done].
      destruct p2 as [|d p2]; [done|]. injection Hr as <- Hr.
      cbn [app]. rewrite <- unresolved_token_app.
      destruct (IH p2 Hr)
        as [->|(before & longer & name & Hne & -> & Hlong & Hname & ->)].
      * left. by rewrite segments_token.
      * right. exists (unresolved_token nm ++ before), longer, name.
        split_and!; [done|by rewrite app_assoc|done..|].
        by rewrite segments_token.
    + (* the match ends with the part itself *)
      assert ((lbrace :: lbrace :: nm) ++ rbrace :: rbrace :: r
              = (pre ++ lbrace :: lbrace :: raw) ++ rbrace :: rbrace :: post)
        as Hcut.
      { rewrite <- app_assoc. cbn [app].
        by rewrite <- (unresolved_token_app raw), <- Htext, Hs. }
      apply (first_rbrace_inj (lbrace :: lbrace :: nm)
               (pre ++ lbrace :: lbrace :: raw)) in Hcut as [Heq Hr].
      2:{ by rewrite !not_elem_of_cons; destruct Hnm. }
      2:{ rewrite elem_of_app, !elem_of_cons. destruct Hraw as [_ Hr'].
          by intros [?|[?|[?|?]]]. }
      injection Hr as ->.
      destruct pre as [|c pre].
      * left. by injection Heq as ->.
      * right. exists [], (c :: pre), nm. split_and!; [done..| |done|done].
        change (unresolved_token nm)
          with ((lbrace :: lbrace :: nm) ++ [rbrace; rbrace]).
        by rewrite Heq, <- app_assoc.
  - destruct pre as [|c' pre].
    + cbn [app] in Htext. rewrite unresolved_token_app in Htext.
      rewrite Htext, match_at_token in Hm; done.
    + injection Htext as <- ->.
      assert (∀ t u, pre ++ unresolved_token raw ++ post = t ++ u →
                     segments (c :: t) = Lit c :: segments t) as Hlit.
      { intros t u Heq. apply segments_no_match.
        apply (match_at_app_None _ u). cbn [app]. by rewrite <- Heq. }
      rewrite segments_no_match by done.
      destruct (IH pre eq_refl)
        as [->|(before & longer & name & Hne & -> & Hlong & Hname & ->)].
      * left. by rewrite (Hlit pre (unresolved_token raw ++ post)).
      * right. exists (c :: before), longer, name.
        split_and!; [done..|].
        by rewrite (Hlit before (longer ++ unresolved_token raw ++ post))
          by (by rewrite <- app_assoc).
Qed.

(** Every match is a part [{{raw}}] of the text. *)
Lemma segments_occurrence s raw :
  Tok raw ∈ segments s → ∃ pre post, s = pre ++ unresolved_token raw ++ post.
Proof.
  induction s as [|s nm r Hm IH|c s Hm IH] using segments_ind.
  - by intros ?%elem_of_nil.
  - pose proof Hm as [Hs _]%match_at_Some.
    rewrite (segments_match _ _ _ Hm).
    intros [[= ->]|(pre & post & ->)%IH]%elem_of_cons.
    + exists [], r. by rewrite Hs, unresolved_token_app.
    + exists (unresolved_token nm ++ pre), post.
      by rewrite Hs, <- unresolved_token_app, app_assoc.
  - rewrite segments_no_match by done.
    intros [[=]|(pre & post & ->)%IH]%elem_of_cons. by exists (c :: pre), post.
Qed.

End pattern_facts.

(** ** Facts about the resolver *)

Section resolver_facts.
Import Pattern.
Implicit Types (self : VariableResolver) (s text name raw : list N).

Lemma contains_Some {V} (d : gmap (list N) V) k v :
  d !! k = Some v → contains d k = true ∧ getitem d k = Ok v.
Proof.
  intros H. unfold contains, getitem. rewrite H.
  split; [|done]. by apply bool_decide_eq_true_2.
Qed.

Lemma contains_None {V} (d : gmap (list N) V) k :
  d !! k = None → contains d k = false.
Proof.
  intros H. unfold contains. rewrite H.
  apply bool_decide_eq_false_2. by intros [? ?].
Qed.

(** Every subscript in [_get_value] is guarded by the membership test
    before it, so the function returns: the bound value, or the token
    rebuilt around the name. *)
Lemma _get_value_ok self name :
  _get_value self name =
  Ok (default (unresolved_token name) (bound_value self name)).
Proof.
  unfold _get_value, bound_value.
  destruct (_runtime_variables self !! name) as [r|] eqn:Hr.
  { apply contains_Some in Hr as [-> ->]. done. }
  rewrite (contains_None _ _ Hr).
  destruct (_environment_variables self !! name) as [e|] eqn:He.
  { apply contains_Some in He as [-> ->]. done. }
  rewrite (contains_None _ _ He).
  destruct (_global_variables self !! name) as [g|] eqn:Hg.
  { apply contains_Some in Hg as [-> ->]. done. }
  by rewrite (contains_None _ _ Hg).
Qed.

Lemma replacer_ok self raw :
  replacer self raw = Ok (expand self (Tok raw)).
Proof. unfold replacer. apply _get_value_ok. Qed.

Lemma sub_segments_ok self l :
  sub_segments (replacer self) l = Ok (flat_map (expand self) l).
Proof.
  induction l as [|[c|raw] l IH]; cbn [sub_segments flat_map]; [done| |].
  - by rewrite IH.
  - by rewrite replacer_ok, bind_Ok, IH.
Qed.

(** [resolve] returns, and what it returns is the text with each
    segment expanded. *)
Lemma resolve_ok self text :
  resolve self text = Ok (resolved_text self text).
Proof.
  destruct text as [|c s]; [done|].
  unfold resolve, sub. apply sub_segments_ok.
Qed.

Lemma resolved_text_match self s raw r :
  match_at s = Some (raw, r) →
  resolved_text self s = expand self (Tok raw) ++ resolved_text self r.
Proof. intros Hm. unfold resolved_text. by rewrite (segments_match s raw r). Qed.

Lemma resolved_text_no_match self c s :
  match_at (c :: s) = None →
  resolved_text self (c :: s) = c :: resolved_text self s.
Proof. intros Hm. unfold resolved_text. by rewrite segments_no_match. Qed.

Lemma flat_map_expand_lit self v : flat_map (expand self) (Lit <$> v) = v.
Proof. induction v as [|c v IH]; simpl; [done|]. by f_equal. Qed.

Lemma resolved_text_lit_prefix self pre t :
  lbrace ∉ pre → resolved_text self (pre ++ t) = pre ++ resolved_text self t.
Proof.
  intros Hpre. unfold resolved_text.
  by rewrite segments_lit_prefix, flat_map_app, flat_map_expand_lit.
Qed.

Lemma resolved_text_token self pre raw post :
  lbrace ∉ pre → capturable raw →
  resolved_text self (pre ++ unresolved_token raw ++ post)
  = pre ++ expand self (Tok raw) ++ resolved_text self post.
Proof.
  intros Hpre Hraw. rewrite resolved_text_lit_prefix by done. f_equal.
  apply resolved_text_match. unfold unresolved_token.
  rewrite <- !app_comm_cons, <- app_assoc. by apply match_at_token.
Qed.

Lemma resolved_text_no_rbrace self s : rbrace ∉ s → resolved_text self s = s.
Proof.
  intros Hs. unfold resolved_text.
  by rewrite segments_no_rbrace, flat_map_expand_lit.
Qed.

Lemma resolved_text_single_rbrace self run w :
  rbrace ∉ run → head w ≠ Some rbrace →
  resolved_text self (run ++ rbrace :: w)
  = run ++ rbrace :: resolved_text self w.
Proof.
  intros Hrun Hw. unfold resolved_text.
  rewrite segments_single_rbrace, flat_map_app by done.
  by rewrite flat_map_expand_lit.
Qed.

Lemma bound_value_None self name :
  bound_value self name = None ↔ in_some_mapping self name = false.
Proof.
  unfold bound_value, in_some_mapping, contains.
  destruct (_runtime_variables self !! name) as [r|];
    destruct (_environment_variables self !! name) as [e|];
    destruct (_global_variables self !! name) as [g|]; simpl;
    repeat (rewrite bool_decide_eq_true_2 by (by eexists));
    repeat (rewrite bool_decide_eq_false_2 by (by intros [? ?])); done.
Qed.

Lemma plain_values_bound self name v :
  plain_values self → bound_value self name = Some v → plain v.
Proof.
  intros (Hr & He & Hg). unfold bound_value.
  destruct (_runtime_variables self !! name) as [r|] eqn:Hlr.
  { intros [= <-]. apply (Hr _ _ Hlr). }
  destruct (_environment_variables self !! name) as [e|] eqn:Hle.
  { intros [= <-]. apply (He _ _ Hle). }
  destruct (_global_variables self !! name) as [g|] eqn:Hlg; [|done].
  intros [= <-]. apply (Hg _ _ Hlg).
Qed.

Lemma tok_not_in_lits raw (v : list N) : Tok raw ∉ (Lit <$> v).
Proof. by intros (? & [=] & _)%list_elem_of_fmap. Qed.

Lemma elem_of_findall raw s : raw ∈ findall s ↔ Tok raw ∈ segments s.
Proof.
  unfold findall. rewrite list_elem_of_omap. split.
  - intros ([c|raw'] & Hin & Heq); by simplify_eq.
  - intros Hin. by exists (Tok raw).
Qed.

(** Every match lies in the text it was found in, so what is captured
    is never empty and never holds a [}]. *)
Lemma segments_capturable s raw : Tok raw ∈ segments s → capturable raw.
Proof.
  induction s as [|s raw' r Hm IH|c s Hm IH] using segments_ind.
  - by intros ?%elem_of_nil.
  - rewrite (segments_match _ _ _ Hm), elem_of_cons.
    intros [[= ->]|Hin]; [|by apply IH].
    by apply match_at_Some in Hm as [_ ?].
  - rewrite (segments_no_match _ _ Hm), elem_of_cons.
    intros [[=]|Hin]. by apply IH.
Qed.

Lemma contains_token_cons c s :
  contains_token (c :: s)
  = bool_decide (is_Some (match_at (c :: s))) || contains_token s.
Proof. done. Qed.

(** [contains_token] says that some part of the text has the form of a
    token. *)
Lemma contains_token_true s :
  contains_token s = true ↔
  ∃ pre raw post, s = pre ++ unresolved_token raw ++ post ∧ capturable raw.
Proof.
  split.
  - induction s as [|c s IH]; [done|].
    rewrite contains_token_cons, orb_true_iff, bool_decide_eq_true.
    intros [[[raw r] Hm]|Hs].
    + apply match_at_Some in Hm as [-> Hraw]. exists [], raw, r.
      split; [|done]. unfold unresolved_token. simpl.
      by rewrite <- app_assoc.
    + destruct (IH Hs) as (pre & raw & post & -> & Hraw).
      by exists (c :: pre), raw, post.
  - intros (pre & raw & post & -> & Hraw).
    induction pre as [|c pre IH].
    + unfold unresolved_token.
      rewrite app_nil_l, <- !app_comm_cons, <- app_assoc.
      change ([rbrace; rbrace] ++ post) with (rbrace :: rbrace :: post).
      rewrite contains_token_cons, match_at_token by done.
      by rewrite bool_decide_eq_true_2 by (by eexists).
    + rewrite <- app_comm_cons, contains_token_cons, IH. apply orb_true_r.
Qed.

Lemma segments_without_token s :
  contains_token s = false → segments s = Lit <$> s.
Proof.
  induction s as [|c s IH]; [done|].
  rewrite contains_token_cons, orb_false_iff, bool_decide_eq_false.
  intros [Hm Hs]. rewrite segments_no_match, IH; [done..|].
  destruct (match_at (c :: s)); [|done]. destruct Hm. by eexists.
Qed.

Lemma resolve_entry_ok self (v : pyval) :
  resolve_entry self v = Ok (resolved_value self v).
Proof. destruct v; try done. simpl. by rewrite resolve_ok. Qed.

(** The loop of [resolve_dict] builds the dictionary of the resolved
    values, key by key. *)
Lemma resolve_dict_ok `{Countable K} self (data : gmap K pyval) :
  resolve_dict self data = Ok (resolved_value self <$> data).
Proof.
  unfold resolve_dict.
  apply (map_fold_weak_ind
           (fun r (m : gmap K pyval) => r = Ok (resolved_value self <$> m))).
  - by rewrite fmap_empty.
  - intros k v m r Hk ->.
    by rewrite bind_Ok, resolve_entry_ok, bind_Ok, fmap_insert.
Qed.

End resolver_facts.

(** Scanning the output of [resolve] again, when the values are plain. *)
Section rescan_facts.
Import Pattern.
Variable self : VariableResolver.
Hypothesis Hplain : plain_values self.
Implicit Types (s w raw : list N) (c : N).

Lemma expand_head raw : head (expand self (Tok raw)) ≠ Some rbrace.
Proof.
  simpl. destruct (bound_value self (strip raw)) as [v|] eqn:Hb; simpl; [|done].
  destruct (plain_values_bound _ _ _ Hplain Hb) as (Hne & _ & Hr).
  destruct v as [|c v]; [done|]. simpl. intros [= ->]. apply Hr. by left.
Qed.

Lemma expand_nonempty raw : expand self (Tok raw) ≠ [].
Proof.
  simpl. destruct (bound_value self (strip raw)) as [v|] eqn:Hb; simpl; [|done].
  by destruct (plain_values_bound _ _ _ Hplain Hb) as (Hne & _ & _).
Qed.

Lemma resolved_text_head w :
  head w ≠ Some rbrace → head (resolved_text self w) ≠ Some rbrace.
Proof.
  intros Hw. destruct w as [|d t]; [done|].
  destruct (match_at (d :: t)) as [[raw r]|] eqn:Hm.
  - rewrite (resolved_text_match _ _ _ _ Hm).
    pose proof (expand_head raw) as Hh. pose proof (expand_nonempty raw) as Hn.
    by destruct (expand self (Tok raw)).
  - by rewrite resolved_text_no_match.
Qed.

(** Where the pattern did not match in the text, it does not match in
    the output. *)
Lemma match_at_resolved_None c s :
  match_at (c :: s) = None → match_at (c :: resolved_text self s) = None.
Proof.
  intros Hm.
  destruct (decide (c = lbrace)) as [->|Hc]; [|by apply match_at_not_lbrace].
  destruct s as [|c2 s]; [done|].
  destruct (decide (c2 = lbrace)) as [->|Hc2].
  2:{ rewrite resolved_text_no_match by (by apply match_at_not_lbrace).
      by apply match_at_not_lbrace2. }
  rewrite resolved_text_no_match by (by apply match_at_shift_None).
  apply match_at_open_None_intro.
  destruct (match_at_open_None_inv _ Hm)
    as [Hs|[[w ->]|(run & w & -> & Hrun & Hw)]].
  - left. by rewrite resolved_text_no_rbrace.
  - right; left. exists (resolved_text self w).
    by rewrite resolved_text_no_match by (by apply match_at_not_lbrace).
  - do 2 right. exists run, (resolved_text self w).
    rewrite resolved_text_single_rbrace by done.
    split_and!; [done..|]. by apply resolved_text_head.
Qed.

Lemma segments_expand raw t :
  capturable raw →
  segments (expand self (Tok raw) ++ t) = rescan self (Tok raw) ++ segments t.
Proof.
  intros [Hne Hraw]. simpl.
  destruct (bound_value self (strip raw)) as [v|] eqn:Hb; simpl.
  { destruct (plain_values_bound _ _ _ Hplain Hb) as (_ & Hl & _).
    by apply segments_lit_prefix. }
  destruct (strip raw) as [|n0 name] eqn:Hname.
  - unfold unresolved_token. simpl.
    rewrite segments_no_match by done.
    rewrite segments_no_match by done.
    rewrite segments_no_match by (by apply match_at_not_lbrace).
    by rewrite segments_no_match by (by apply match_at_not_lbrace).
  - unfold unresolved_token. rewrite <- Hname.
    rewrite <- !app_comm_cons, <- app_assoc. simpl.
    apply segments_match, match_at_token. split; [by rewrite Hname|].
    by apply strip_not_elem_of.
Qed.

Lemma segments_resolved_text s :
  segments (resolved_text self s) = flat_map (rescan self) (segments s).
Proof.
  induction s as [|s raw r Hm IH|c s Hm IH] using segments_ind; [done| |].
  - rewrite (resolved_text_match _ _ _ _ Hm), (segments_match _ _ _ Hm).
    cbn [flat_map]. rewrite segments_expand, IH; [done|].
    by apply match_at_Some in Hm as [_ ?].
  - rewrite (resolved_text_no_match _ _ _ Hm), (segments_no_match _ _ Hm).
    cbn [flat_map rescan]. simpl.
    rewrite segments_no_match by (by apply match_at_resolved_None).
    by rewrite IH.
Qed.

Lemma expand_rescan sg :
  flat_map (expand self) (rescan self sg) = expand self sg.
Proof.
  destruct sg as [c|raw]; [done|]. simpl.
  destruct (bound_value self (strip raw)) as [v|] eqn:Hb; simpl.
  { apply flat_map_expand_lit. }
  destruct (strip raw) as [|n0 name] eqn:Hname; [done|].
  cbn [flat_map expand]. rewrite <- Hname, strip_idemp, Hname, Hb.
  apply app_nil_r.
Qed.

Lemma resolved_text_idemp s :
  resolved_text self (resolved_text self s) = resolved_text self s.
Proof.
  unfold resolved_text at 1 3. rewrite segments_resolved_text.
  induction (segments s) as [|sg l IH]; [done|].
  cbn [flat_map]. by rewrite flat_map_app, expand_rescan, IH.
Qed.

End rescan_facts.


(** ** [get_all_variables] and the scenarios of the specification *)

Lemma fold_values_union (m : gmap (list N) Variable_)
    (acc : gmap (list N) (list N)) :
  map_fold (fun k var acc => <[k := value var]> acc) acc m
  = (value <$> m) ∪ acc.
Proof.
  apply (map_fold_weak_ind
           (fun r (m : gmap (list N) Variable_) => r = (value <$> m) ∪ acc)).
  - by rewrite fmap_empty, (left_id_L ∅ (∪)).
  - intros k x m' r Hk ->. by rewrite fmap_insert, insert_union_l.
Qed.

(** The flattened dictionary binds a name to the value [_get_value] would
    find for it. *)
Lemma get_all_variables_lookup (self : VariableResolver) (name : list N) :
  get_all_variables self !! name = bound_value self name.
Proof.
  unfold get_all_variables, bound_value. rewrite !fold_values_union.
  rewrite !lookup_union, !lookup_fmap, lookup_empty.
  by destruct (_runtime_variables self !! name),
       (_environment_variables self !! name),
       (_global_variables self !! name).
Qed.

Example end_to_end :
  resolve scenario (py "{{base}}/users?key={{token}}")
  = Ok (py "https://api.example.com/users?key=abc123").
Proof. by vm_compute. Qed.

Example whitespace_tolerance :
  resolve (set_runtime_variable __init__ (py "name") (py "x"))
          (py "{{  name  }}")
  = Ok (py "x").
Proof. by vm_compute. Qed.

Example validate_no_tokens :
  validate scenario (py "no tokens here") = Ok (true, []).
Proof. by vm_compute. Qed.

Example unresolved_a_b :
  get_unresolved_variables (set_runtime_variable __init__ (py "a") (py "1"))
                           (py "{{a}} {{b}}")
  = Ok [py "b"].
Proof. by vm_compute. Qed.

Example resolve_dict_sample :
  resolve_dict with_token sample_dict
  = Ok {[ py "h" := VStr (py "v"); py "n" := VInt 42 ]}.
Proof. by vm_compute. Qed.

(** ** The claims *)

(** C1. The scenario of the specification on the text [{id: {{ k }}}],
    with [k] bound in the three scopes.  The precedence is as the
    specification has it: [resolve] puts the runtime value for the token,
    after [clear_runtime] the environment value, and without the
    environment entry the global value.  The last step is not: without
    the global entry the literal token is to come out, and the code emits
    [{{k}}], the token rebuilt around the trimmed name, although the
    comment in [_get_value] says that the original is kept. *)
Theorem lookup_precedence :
  let text := py "{id: {{ k }}}" in
  let no_runtime := clear_runtime three_scopes in
  let no_environment := set_environment_variables no_runtime ∅ in
  let no_global := set_global_variables no_environment ∅ in
  resolve three_scopes text = Ok (py "{id: run}")
  ∧ resolve no_runtime text = Ok (py "{id: env}")
  ∧ resolve no_environment text = Ok (py "{id: glob}")
  ∧ resolve no_global text = Ok (py "{id: {{k}}}")
  ∧ py "{id: {{k}}}" ≠ text.
Proof. split_and!; by vm_compute. Qed.

(** C2. The specification has a token whose name is bound nowhere come
    out of [resolve] character for character.  The code rebuilds the
    token around the trimmed name instead: the blanks inside
    [{{  missing  }}] are lost, although the comment in [_get_value]
    says that the original is kept. *)
Theorem unresolved_token_is_retrimmed :
  resolve __init__ (py "{{  missing  }}") = Ok (py "{{missing}}")
  ∧ py "{{missing}}" ≠ py "{{  missing  }}".
Proof. split; [by vm_compute|done]. Qed.

(** C3. [resolve] is one pass from left to right and does not scan what it
    substitutes.  Take any text and any token of it, with the segments
    [before] and [after] it in the scan, that names a variable whose value
    holds a token [{{inner}}] of its own (whatever [inner] names): the
    output is the expansion of [before], then the value with [{{inner}}]
    in it as it is, then the expansion of [after]. *)
Theorem resolve_single_pass (self : VariableResolver)
    (text raw v1 inner v2 : list N) (before after : list Pattern.segment) :
  Pattern.segments text = before ++ Pattern.Tok raw :: after →
  bound_value self (strip raw) = Some (v1 ++ unresolved_token inner ++ v2) →
  resolve self text
  = Ok (flat_map (expand self) before
        ++ (v1 ++ unresolved_token inner ++ v2)
        ++ flat_map (expand self) after).
Proof.
  intros Hseg Hv. rewrite resolve_ok. unfold resolved_text.
  rewrite Hseg, flat_map_app. cbn [flat_map expand]. by rewrite Hv.
Qed.

Lemma resolve_single_pass_witness :
  resolve nested (py "{{a}}/{{b}}") = Ok (py "{{b}}/x").
Proof.
  exact (resolve_single_pass nested (py "{{a}}/{{b}}") (py "a") [] (py "b") []
           [] [Pattern.Lit 47; Pattern.Tok (py "b")] eq_refl eq_refl).
Defined.

(** C4, as the specification has it, fails: a value that holds a token is
    expanded by the second call.  So is a token that only comes about in
    the output, around an empty value or out of a value with braces. *)
Lemma resolve_not_idempotent :
  (once ← resolve nested (py "{{a}}"); resolve nested once)
  ≠ resolve nested (py "{{a}}")
  ∧ (once ← resolve joining (py "{{x}{{a}}}"); resolve joining once)
    ≠ resolve joining (py "{{x}{{a}}}")
  ∧ (once ← resolve opening (py "{{a}}x}}"); resolve opening once)
    ≠ resolve opening (py "{{a}}x}}").
Proof. by vm_compute. Qed.

(** C4, amended.  With the mappings unchanged between the calls and every
    value in them non-empty and free of [{] and [}],
    [resolve(resolve(text)) == resolve(text)] for every text. *)
Theorem resolve_idempotent_plain (self : VariableResolver) (text : list N) :
  plain_values self →
  (once ← resolve self text; resolve self once) = resolve self text.
Proof.
  intros Hplain. rewrite !resolve_ok, bind_Ok, resolve_ok.
  by rewrite resolved_text_idemp.
Qed.

Lemma resolve_idempotent_plain_witness :
  (once ← resolve scenario (py "{{base}}/{{ id }}?key={{token}}");
   resolve scenario once)
  = resolve scenario (py "{{base}}/{{ id }}?key={{token}}").
Proof.
  exact (resolve_idempotent_plain scenario
           (py "{{base}}/{{ id }}?key={{token}}") ltac:(compute_done)).
Defined.

(** C5, as the specification has it, fails twice over: a name that only
    occurs in a substituted value is reported (here [b], which is even
    bound), and a token whose trimmed name is empty is not. *)
Lemma unresolved_names_differ :
  get_unresolved_variables nested (py "{{a}}") = Ok [py "b"]
  ∧ spec_unresolved_names nested (py "{{a}}") = []
  ∧ get_unresolved_variables __init__ (py "{{ }}") = Ok []
  ∧ spec_unresolved_names __init__ (py "{{ }}") = [[]].
Proof. by vm_compute. Qed.

(** C5, amended.  When every value in the mappings is non-empty and free
    of [{] and [}], [get_unresolved_variables(text)] returns, without
    repetition, exactly the non-empty trimmed token names of [text] that
    are keys of no mapping. *)
Theorem unresolved_variables_plain (self : VariableResolver) (text : list N) :
  plain_values self →
  ∃ names,
    get_unresolved_variables self text = Ok names
    ∧ NoDup names
    ∧ ∀ name, name ∈ names ↔
        name ≠ [] ∧ name ∈ spec_unresolved_names self text.
Proof.
  intros Hplain. eexists. split.
  { unfold get_unresolved_variables. by rewrite resolve_ok, bind_Ok. }
  unfold list_of_set. split; [apply NoDup_elements|].
  intros name. unfold spec_unresolved_names.
  rewrite elem_of_elements, elem_of_list_to_set, elem_of_findall.
  rewrite segments_resolved_text by done.
  rewrite list_elem_of_filter, list_elem_of_fmap, <- bound_value_None.
  rewrite list_elem_of_In, in_flat_map. split.
  - intros ([c|raw] & Hin%list_elem_of_In & Hre%list_elem_of_In).
    { simpl in Hre. by apply list_elem_of_singleton in Hre. }
    cbn [rescan] in Hre.
    destruct (bound_value self (strip raw)) as [v|] eqn:Hb.
    { by apply tok_not_in_lits in Hre. }
    destruct (strip raw) as [|n0 nm] eqn:Hnm.
    { by apply tok_not_in_lits in Hre. }
    apply list_elem_of_singleton in Hre as [= ->].
    split_and!; [done..|]. exists raw. by rewrite elem_of_findall.
  - intros (Hne & Hb & raw & -> & Hin%elem_of_findall).
    exists (Pattern.Tok raw). split; [by apply list_elem_of_In|].
    apply list_elem_of_In. simpl. rewrite Hb.
    destruct (strip raw); [done|]. by apply list_elem_of_singleton.
Qed.

Lemma unresolved_variables_plain_witness :
  ∃ names,
    get_unresolved_variables scenario (py "{{base}}/{{ id }}{{ }}{{id}}")
    = Ok names
    ∧ NoDup names
    ∧ ∀ name, name ∈ names ↔
        name ≠ []
        ∧ name ∈ spec_unresolved_names scenario
                   (py "{{base}}/{{ id }}{{ }}{{id}}").
Proof.
  exact (unresolved_variables_plain scenario
           (py "{{base}}/{{ id }}{{ }}{{id}}") ltac:(compute_done)).
Defined.

(** C6, as the specification has it, fails twice over.  [a}b] is a run of
    characters without [}}], and a key of the runtime mapping, yet
    [{{a}b}}] is no token: nothing is captured and nothing substituted.
    And in [{{{a}}] the part [{{a}}] has the form of a token, and [a] is
    bound, yet the token is the longer part that begins before it, with
    the name [{a]: matches are taken from left to right and do not
    overlap. *)
Lemma not_every_substring_is_a_token :
  spec_token_interior (py "a}b") = true
  ∧ _get_value odd_key (strip (py "a}b")) = Ok (py "v")
  ∧ Pattern.findall (py "{{a}b}}") = []
  ∧ resolve odd_key (py "{{a}b}}") = Ok (py "{{a}b}}")
  ∧ spec_token_interior (py "a") = true
  ∧ resolve bound_a (py "{{a}}") = Ok (py "v")
  ∧ Pattern.findall (py "{{{a}}") = [py "{a"]
  ∧ resolve bound_a (py "{{{a}}") = Ok (py "{{{a}}").
Proof. by vm_compute. Qed.

(** C6, amended.  A token is [{{], one or more characters none of which is
    [}], and [}}].  Every part of a text that has this form, wherever it
    stands, is taken as a token: its interior is captured, trimmed, looked
    up and substituted, with the text before it and the text after it
    resolved on their own; unless a longer part of this form begins before
    it and ends with it, and then that longer part is the token.
    Conversely, whatever the pattern captures is the interior of such a
    part of the text: it is not empty and holds no [}]. *)
Theorem token_recognized (self : VariableResolver) (pre raw post : list N) :
  capturable raw →
  (recognized self pre raw post
   ∨ ∃ before longer name,
       longer ≠ [] ∧ pre = before ++ longer
       ∧ unresolved_token name = longer ++ unresolved_token raw
       ∧ capturable name
       ∧ recognized self before name post)
  ∧ ∀ text captured, captured ∈ Pattern.findall text →
      capturable captured
      ∧ ∃ pre' post', text = pre' ++ unresolved_token captured ++ post'.
Proof.
  intros Hraw.
  assert (∀ p nm, capturable nm →
    Pattern.segments (p ++ unresolved_token nm ++ post)
    = Pattern.segments p ++ Pattern.Tok nm :: Pattern.segments post →
    recognized self p nm post) as Hrec.
  { intros p nm Hnm Hseg. split.
    - unfold Pattern.findall. by rewrite Hseg, omap_app.
    - rewrite _get_value_ok, resolve_ok, bind_Ok. unfold resolved_text.
      by rewrite Hseg, flat_map_app. }
  split.
  - destruct (segments_cut raw post pre Hraw)
      as [Hseg|(before & longer & name & Hne & -> & Hlong & Hname & Hseg)].
    + left. by apply Hrec.
    + right. exists before, longer, name. split_and!; [done..|].
      apply Hrec; [done|].
      rewrite <- app_assoc in Hseg. by rewrite Hlong, <- app_assoc.
  - intros text captured Hin%elem_of_findall. split.
    + by apply (segments_capturable text).
    + by apply segments_occurrence.
Qed.

Lemma token_recognized_witness :
  resolve scenario (py "{key: {{ token }}, u: {{base}}}")
  = Ok (py "{key: abc123, u: https://api.example.com}").
Proof.
  destruct (proj1 (token_recognized scenario (py "{key: ") (py " token ")
                     (py ", u: {{base}}}") ltac:(compute_done)))
    as [[_ Hres]|(before & longer & name & Hne & Hpre & Hlong & _)].
  - etrans; [exact Hres|]. by vm_compute.
  - exfalso. destruct longer as [|c longer]; [done|].
    injection Hlong as <- Hlong. vm_compute in Hpre.
    do 7 (destruct before as [|? before]; simplify_eq/=).
Defined.

(** C7. A text in which the pattern matches nowhere (the empty text, a
    text without braces, an unterminated [{{]) is returned as it is. *)
Theorem resolve_without_token (self : VariableResolver) (text : list N) :
  contains_token text = false → resolve self text = Ok text.
Proof.
  intros Hno. rewrite resolve_ok. unfold resolved_text.
  by rewrite segments_without_token, flat_map_expand_lit.
Qed.

Lemma resolve_without_token_witness :
  resolve scenario [] = Ok []
  ∧ resolve scenario (py "no tokens here") = Ok (py "no tokens here")
  ∧ resolve scenario (py "{{base/{{token}") = Ok (py "{{base/{{token}").
Proof.
  split_and!.
  - exact (resolve_without_token scenario [] eq_refl).
  - exact (resolve_without_token scenario (py "no tokens here") eq_refl).
  - exact (resolve_without_token scenario (py "{{base/{{token}") eq_refl).
Defined.

(** C8. [resolve_dict] returns a dictionary with the keys of its argument,
    in which a string is replaced by what [resolve] returns for it and any
    other value is the one that was given. *)
Theorem resolve_dict_spec `{Countable K} (self : VariableResolver)
    (data : gmap K pyval) :
  ∃ out,
    resolve_dict self data = Ok out
    ∧ dom out = dom data
    ∧ ∀ k v, data !! k = Some v →
        match v with
        | VStr s => ∃ r, resolve self s = Ok r ∧ out !! k = Some (VStr r)
        | _ => out !! k = Some v
        end.
Proof.
  exists (resolved_value self <$> data). split_and!.
  - apply resolve_dict_ok.
  - apply dom_fmap_L.
  - intros k v Hk. rewrite lookup_fmap, Hk.
    destruct v; try done. eexists. split; [apply resolve_ok|done].
Qed.

Lemma resolve_dict_spec_witness :
  ∃ out,
    resolve_dict with_token sample_dict = Ok out
    ∧ out !! py "h" = Some (VStr (py "v"))
    ∧ out !! py "n" = Some (VInt 42)
    ∧ dom out = dom sample_dict.
Proof.
  destruct (resolve_dict_spec with_token sample_dict)
    as (out & Hout & Hdom & Hval).
  exists out. split_and!; [done| | |done].
  - destruct (Hval (py "h") (VStr (py "{{token}}")) eq_refl)
      as (r & Hr & Hh).
    rewrite Hh. vm_compute in Hr. by injection Hr as <-.
  - exact (Hval (py "n") (VInt 42) eq_refl).
Defined.

(** C9. No operation of the resolver raises, whatever the text and the
    mappings: the subscripts of [_get_value] are guarded, the callback
    given to [sub] therefore returns, and the scan ends on every text.
    (The setters, [clear_runtime] and [get_all_variables] hold no operation
    that can raise; they are functions of the resolver.) *)
Theorem resolver_total (self : VariableResolver) (text name : list N)
    (data : gmap (list N) pyval) :
  (∃ v, _get_value self name = Ok v)
  ∧ (∃ out, resolve self text = Ok out)
  ∧ (∃ out, resolve_dict self data = Ok out)
  ∧ (∃ names, get_unresolved_variables self text = Ok names)
  ∧ (∃ ok names, validate self text = Ok (ok, names)).
Proof.
  split_and!.
  - eexists. apply _get_value_ok.
  - eexists. apply resolve_ok.
  - eexists. apply resolve_dict_ok.
  - eexists. unfold get_unresolved_variables. by rewrite resolve_ok, bind_Ok.
  - do 2 eexists. unfold validate, get_unresolved_variables.
    by rewrite resolve_ok, !bind_Ok.
Qed.

(** C10. [{{}}] is no token, whatever the mappings hold: [resolve] returns
    it as it is and [get_unresolved_variables] finds no name in it. *)
Theorem empty_braces_are_literal (self : VariableResolver) :
  resolve self (py "{{}}") = Ok (py "{{}}")
  ∧ get_unresolved_variables self (py "{{}}") = Ok [].
Proof.
  assert (Hr : resolve self (py "{{}}") = Ok (py "{{}}")).
  { by rewrite resolve_ok. }
  split; [done|]. unfold get_unresolved_variables. rewrite Hr, bind_Ok.
  by vm_compute.
Qed.

(** ** Further properties of the resolver *)

Section more_resolver_facts.
Import Pattern.
Implicit Types (self : VariableResolver) (s text name raw : list N).

Lemma findall_nil s : findall s = [] ↔ contains_token s = false.
Proof.
  split.
  - induction s as [|c s IH]; [done|].
    rewrite contains_token_cons. unfold findall. rewrite segments_cons.
    destruct (match_at (c :: s)) as [[raw r]|] eqn:Hm; [done|].
    intros Hf. rewrite (IH Hf), orb_false_r.
    apply bool_decide_eq_false_2. by intros [? ?].
  - intros Hno. unfold findall. rewrite segments_without_token by done.
    clear. by induction s.
Qed.

Lemma bound_value_set_runtime self k v name :
  bound_value (set_runtime_variable self k v) name
  = if decide (k = name) then Some v else bound_value self name.
Proof.
  unfold bound_value. simpl. rewrite lookup_insert.
  by destruct (decide (k = name)).
Qed.

Lemma findall_match s raw r :
  match_at s = Some (raw, r) → findall s = raw :: findall r.
Proof. intros Hm. unfold findall. by rewrite (segments_match _ _ _ Hm). Qed.

Lemma findall_no_match c s :
  match_at (c :: s) = None → findall (c :: s) = findall s.
Proof. intros Hm. unfold findall. by rewrite (segments_no_match _ _ Hm). Qed.

(** The names found in the output of [resolve], when the values are
    plain. *)
Lemma findall_resolved_plain self text name :
  plain_values self →
  name ∈ findall (resolved_text self text) ↔
  ∃ raw, raw ∈ findall text ∧ strip raw = name ∧ name ≠ []
         ∧ bound_value self name = None.
Proof.
  intros Hplain.
  rewrite elem_of_findall, segments_resolved_text by done.
  rewrite list_elem_of_In, in_flat_map. split.
  - intros ([c|raw] & Hin%list_elem_of_In & Hre%list_elem_of_In).
    { simpl in Hre. by apply list_elem_of_singleton in Hre. }
    cbn [rescan] in Hre.
    destruct (bound_value self (strip raw)) as [v|] eqn:Hb.
    { by apply tok_not_in_lits in Hre. }
    destruct (strip raw) as [|n0 nm] eqn:Hnm.
    { by apply tok_not_in_lits in Hre. }
    apply list_elem_of_singleton in Hre as [= ->].
    exists raw. by rewrite elem_of_findall.
  - intros (raw & Hin%elem_of_findall & <- & Hne & Hb).
    exists (Tok raw). split; [by apply list_elem_of_In|].
    apply list_elem_of_In. simpl. rewrite Hb.
    destruct (strip raw); [done|]. by apply list_elem_of_singleton.
Qed.

End more_resolver_facts.

(** X1. The flattened dictionary and the lookup agree: [_get_value] returns
    for a name what [get_all_variables] holds for it, and the rebuilt
    token for a name that [get_all_variables] lacks; the keys of the
    flattened dictionary are the keys of the three mappings. *)
Theorem get_all_variables_agrees (self : VariableResolver) (name : list N) :
  _get_value self name
  = Ok (default (unresolved_token name) (get_all_variables self !! name))
  ∧ dom (get_all_variables self)
    = dom (_runtime_variables self) ∪ dom (_environment_variables self)
      ∪ dom (_global_variables self).
Proof.
  split.
  - by rewrite _get_value_ok, get_all_variables_lookup.
  - unfold get_all_variables. rewrite !fold_values_union.
    rewrite !dom_union_L, !dom_fmap_L, dom_empty_L.
    by rewrite (right_id_L ∅ (∪)), (assoc_L (∪)).
Qed.

(** X2. A runtime assignment is read back, before anything the other two
    mappings hold for the key, and no other name is affected; in the
    flattened dictionary it is one insertion. *)
Theorem set_runtime_variable_lookup (self : VariableResolver)
    (k v name : list N) :
  _get_value (set_runtime_variable self k v) k = Ok v
  ∧ (name ≠ k →
     _get_value (set_runtime_variable self k v) name = _get_value self name)
  ∧ get_all_variables (set_runtime_variable self k v)
    = <[k := v]> (get_all_variables self).
Proof.
  split_and!.
  - rewrite _get_value_ok, bound_value_set_runtime. by rewrite decide_True.
  - intros Hne. rewrite !_get_value_ok, bound_value_set_runtime.
    by rewrite decide_False.
  - apply map_eq. intros i.
    rewrite get_all_variables_lookup, bound_value_set_runtime, lookup_insert.
    destruct (decide (k = i)); [done|]. by rewrite get_all_variables_lookup.
Qed.

Lemma set_runtime_variable_lookup_witness :
  _get_value (set_runtime_variable three_scopes (py "k") (py "new")) (py "k")
  = Ok (py "new")
  ∧ _get_value (set_runtime_variable scenario (py "k") (py "new")) (py "base")
    = _get_value scenario (py "base").
Proof.
  split.
  - exact (proj1 (set_runtime_variable_lookup three_scopes (py "k") (py "new")
                    (py "k"))).
  - exact (proj1 (proj2 (set_runtime_variable_lookup scenario (py "k")
                           (py "new") (py "base")))
             ltac:(done)).
Defined.

(** X3. [clear_runtime] forgets the runtime assignments and nothing else:
    the flattened dictionary is then made of the environment and global
    values alone, and a name that had no runtime value resolves as
    before. *)
Theorem clear_runtime_forgets (self : VariableResolver) (k v name : list N) :
  clear_runtime (set_runtime_variable self k v) = clear_runtime self
  ∧ get_all_variables (clear_runtime self)
    = (value <$> _environment_variables self)
      ∪ (value <$> _global_variables self)
  ∧ (_runtime_variables self !! name = None →
     _get_value (clear_runtime self) name = _get_value self name).
Proof.
  split_and!.
  - done.
  - unfold get_all_variables. rewrite !fold_values_union. simpl.
    by rewrite (left_id_L ∅ (∪)), (right_id_L ∅ (∪)).
  - intros Hr. rewrite !_get_value_ok. unfold bound_value. simpl.
    by rewrite lookup_empty, Hr.
Qed.

Lemma clear_runtime_forgets_witness :
  _get_value (clear_runtime scenario) (py "token")
  = _get_value scenario (py "token").
Proof.
  exact (proj2 (proj2 (clear_runtime_forgets scenario [] [] (py "token")))
           eq_refl).
Defined.

(** X4. [validate] answers on the output of [resolve]: its flag is true
    exactly when the pattern matches nowhere in that output, and exactly
    then the list of names is empty. *)
Theorem validate_scans_output (self : VariableResolver) (text : list N) :
  ∃ out names,
    resolve self text = Ok out
    ∧ validate self text = Ok (negb (contains_token out), names)
    ∧ (names = [] ↔ contains_token out = false).
Proof.
  set (out := resolved_text self text).
  set (names := list_of_set (Pattern.findall out)).
  assert (Hnil : names = [] ↔ contains_token out = false).
  { rewrite <- findall_nil. unfold names, list_of_set.
    rewrite elements_empty_iff. split.
    - intros Hs. destruct (Pattern.findall out) as [|x l]; [done|].
      exfalso. cut (x ∈ (∅ : gset (list N))); [by intros ?%not_elem_of_empty|].
      rewrite <- Hs, elem_of_list_to_set. by left.
    - by intros ->. }
  exists out, names. split_and!; [apply resolve_ok| |done].
  unfold validate, get_unresolved_variables. rewrite resolve_ok, !bind_Ok.
  fold out. fold names. clearbody names. revert Hnil.
  generalize (contains_token out). intros [] Hnil; destruct names as [|x l];
    simpl; try done.
  - destruct Hnil as [Hnil _]. by specialize (Hnil eq_refl).
  - destruct Hnil as [_ Hnil]. by specialize (Hnil eq_refl).
Qed.

(** X5. With plain values, [validate] accepts a text exactly when every
    token of it has a trimmed name that is bound, or empty: a token made
    of blanks only passes, although [resolve] leaves [{{}}] in its
    place. *)
Theorem validate_plain (self : VariableResolver) (text : list N) :
  plain_values self →
  validate self text = Ok (true, [])
  ↔ ∀ raw, raw ∈ Pattern.findall text →
      strip raw = [] ∨ in_some_mapping self (strip raw) = true.
Proof.
  intros Hplain.
  unfold validate, get_unresolved_variables. rewrite resolve_ok, !bind_Ok.
  set (names := list_of_set _).
  assert (Hnames : names = [] ↔
    ∀ raw, raw ∈ Pattern.findall text →
      strip raw = [] ∨ in_some_mapping self (strip raw) = true).
  { unfold names, list_of_set. rewrite elements_empty_iff. split.
    - intros Hs raw Hraw.
      destruct (decide (strip raw = [])) as [|Hne]; [by left|right].
      destruct (in_some_mapping self (strip raw)) eqn:Hin; [done|].
      exfalso.
      cut (strip raw ∈ (∅ : gset (list N))); [by intros ?%not_elem_of_empty|].
      rewrite <- Hs, elem_of_list_to_set.
      apply findall_resolved_plain; [done|]. exists raw.
      by rewrite bound_value_None.
    - intros Hall name.
      rewrite elem_of_list_to_set, findall_resolved_plain by done.
      split; [|by intros ?%not_elem_of_empty].
      intros (raw & Hraw & <- & Hne & Hb%bound_value_None).
      destruct (Hall raw Hraw); congruence. }
  split.
  - intros [= Hlen Hn]. by apply Hnames.
  - intros Hall. by rewrite (proj2 Hnames Hall).
Qed.

Lemma validate_plain_witness :
  validate scenario (py "{{ base }}/{{ }}?key={{token}}") = Ok (true, []).
Proof.
  apply (validate_plain scenario (py "{{ base }}/{{ }}?key={{token}}")
           ltac:(compute_done)).
  intros raw Hraw. vm_compute in Hraw.
  repeat (apply elem_of_cons in Hraw as [->|Hraw]; [vm_compute; tauto|]).
  by apply elem_of_nil in Hraw.
Defined.

(** X6. Blanks around the name inside a token do not matter: the token
    [{{raw}}] is resolved like [{{name}}] with [name] the trimmed [raw],
    provided [name] is not empty (then [{{name}}] would be no token). *)
Theorem whitespace_inside_token (self : VariableResolver)
    (pre raw post : list N) :
  lbrace ∉ pre → capturable raw → strip raw ≠ [] →
  resolve self (pre ++ unresolved_token raw ++ post)
  = resolve self (pre ++ unresolved_token (strip raw) ++ post).
Proof.
  intros Hpre [Hne Hraw] Hname. rewrite !resolve_ok. f_equal.
  rewrite !resolved_text_token; [|done|by split; [|apply strip_not_elem_of]|done..].
  simpl. by rewrite strip_idemp.
Qed.

Lemma whitespace_inside_token_witness :
  resolve scenario (py "u={{  base  }}/x") = resolve scenario (py "u={{base}}/x").
Proof.
  exact (whitespace_inside_token scenario (py "u=") (py "  base  ") (py "/x")
           ltac:(compute_done) ltac:(compute_done) ltac:(done)).
Defined.

(** X7. [resolve_dict] returns a dictionary equal to its argument when no
    string in it holds a token. *)
Theorem resolve_dict_without_token `{Countable K} (self : VariableResolver)
    (data : gmap K pyval) :
  (∀ k s, data !! k = Some (VStr s) → contains_token s = false) →
  resolve_dict self data = Ok data.
Proof.
  intros Hno. rewrite resolve_dict_ok. f_equal. apply map_eq. intros k.
  rewrite lookup_fmap. destruct (data !! k) as [v|] eqn:Hk; [|done].
  simpl. f_equal. destruct v; try done. simpl. f_equal.
  unfold resolved_text.
  by rewrite segments_without_token, flat_map_expand_lit by eauto.
Qed.

Lemma resolve_dict_without_token_witness :
  resolve_dict scenario
    ({[ py "Accept" := VStr (py "*/*"); py "n" := VInt 42 ]}
       : gmap (list N) pyval)
  = Ok {[ py "Accept" := VStr (py "*/*"); py "n" := VInt 42 ]}.
Proof.
  apply resolve_dict_without_token. intros k s Hk.
  destruct (decide (k = py "Accept")) as [->|Hne].
  - vm_compute in Hk. by injection Hk as <-.
  - rewrite lookup_insert_ne in Hk by done.
    destruct (decide (k = py "n")) as [->|Hne'].
    + rewrite lookup_singleton_eq in Hk. done.
    + by rewrite lookup_singleton_ne in Hk.
Defined.

(** X8. A text all of whose tokens are written without blanks around the
    name and name nothing that is bound is returned as it is. *)
Theorem resolve_unbound_tokens (self : VariableResolver) (text : list N) :
  (∀ raw, raw ∈ Pattern.findall text →
     strip raw = raw ∧ in_some_mapping self raw = false) →
  resolve self text = Ok text.
Proof.
  intros Hall. rewrite resolve_ok. f_equal. revert Hall.
  induction text as [|s raw r Hm IH|c s Hm IH] using segments_ind; intros Hall.
  - done.
  - rewrite (resolved_text_match _ _ _ _ Hm), IH.
    + destruct (Hall raw) as [Hraw Hb%bound_value_None].
      { rewrite (findall_match _ _ _ Hm). by left. }
      simpl. rewrite Hraw, Hb. simpl.
      apply match_at_Some in Hm as [-> _]. unfold unresolved_token.
      by rewrite <- app_assoc.
    + intros raw' Hin. apply Hall. rewrite (findall_match _ _ _ Hm). by right.
  - rewrite (resolved_text_no_match _ _ _ Hm), IH; [done|].
    intros raw' Hin. apply Hall. by rewrite (findall_no_match _ _ Hm).
Qed.

Lemma resolve_unbound_tokens_witness :
  resolve scenario (py "{{id}}/{{x y}}") = Ok (py "{{id}}/{{x y}}").
Proof.
  apply resolve_unbound_tokens. intros raw Hraw. vm_compute in Hraw.
  repeat (apply elem_of_cons in Hraw as [->|Hraw]; [by vm_compute|]).
  by apply elem_of_nil in Hraw.
Defined.

(** X27. The precedence at every token.  Take any text and any token
    [{{raw}}] of it, with the segments [before] and [after] it in the
    scan, and let [name] be the trimmed [raw].  Where the runtime mapping
    binds [name], [resolve] puts the runtime value in the place of the
    token, whatever the other two mappings hold; after [clear_runtime],
    or in any resolver whose runtime mapping lacks [name], the
    environment value; with [name] absent from the environment mapping
    too, the global value; and with [name] absent from the three
    mappings, the token rebuilt around [name].  The rest of the text is
    expanded segment by segment. *)
Theorem precedence_at_token (self : VariableResolver)
    (text raw name : list N) (before after : list Pattern.segment) :
  Pattern.segments text = before ++ Pattern.Tok raw :: after →
  strip raw = name →
  let substituting (st : VariableResolver) (v : list N) :=
    resolve st text
    = Ok (flat_map (expand st) before ++ v ++ flat_map (expand st) after) in
  (∀ r, _runtime_variables self !! name = Some r → substituting self r)
  ∧ (∀ e, _environment_variables self !! name = Some e →
       substituting (clear_runtime self) (value e))
  ∧ (∀ e, _runtime_variables self !! name = None →
       _environment_variables self !! name = Some e →
       substituting self (value e))
  ∧ (∀ g, _runtime_variables self !! name = None →
       _environment_variables self !! name = None →
       _global_variables self !! name = Some g →
       substituting self (value g))
  ∧ (_runtime_variables self !! name = None →
     _environment_variables self !! name = None →
     _global_variables self !! name = None →
     substituting self (unresolved_token name)).
Proof.
  intros Hseg Hname substituting.
  assert (Hgen : ∀ st v,
    default (unresolved_token name) (bound_value st name) = v →
    substituting st v).
  { intros st v Hv. unfold substituting.
    rewrite resolve_ok. unfold resolved_text.
    rewrite Hseg, flat_map_app. cbn [flat_map expand].
    by rewrite Hname, Hv. }
  split_and!.
  - intros r Hr. apply Hgen. unfold bound_value. by rewrite Hr.
  - intros e He. apply Hgen. unfold bound_value. simpl.
    by rewrite lookup_empty, He.
  - intros e Hr He. apply Hgen. unfold bound_value. by rewrite Hr, He.
  - intros g Hr He Hg. apply Hgen. unfold bound_value. by rewrite Hr, He, Hg.
  - intros Hr He Hg. apply Hgen. unfold bound_value. by rewrite Hr, He, Hg.
Qed.

Lemma precedence_at_token_witness :
  resolve three_scopes (py "{id: {{ k }}}") = Ok (py "{id: run}")
  ∧ resolve (clear_runtime three_scopes) (py "{id: {{ k }}}")
    = Ok (py "{id: env}").
Proof.
  assert (Pattern.segments (py "{id: {{ k }}}")
          = (Pattern.Lit <$> py "{id: ")
            ++ Pattern.Tok (py " k ") :: [Pattern.Lit 125]) as Hseg
    by (by vm_compute).
  destruct (precedence_at_token three_scopes (py "{id: {{ k }}}") (py " k ")
              (py "k") (Pattern.Lit <$> py "{id: ") [Pattern.Lit 125]
              Hseg eq_refl)
    as (Hrun & Henv & _).
  split.
  - exact (Hrun (py "run") eq_refl).
  - exact (Henv (variable "k" "env") eq_refl).
Defined.

(** ** The key-value table *)

Section table_facts.
Implicit Types (self : KeyValueTable.t) (item : KeyValueItem.t).

Lemma get_data_add_row self item :
  KeyValueTable.get_data (KeyValueTable.add_row self (Some item))
  = KeyValueTable.get_data self
    ++ [as_stored (KeyValueTable._show_description self) item].
Proof.
  unfold KeyValueTable.get_data, KeyValueTable.add_row. simpl.
  rewrite fmap_app. f_equal. unfold as_stored. simpl.
  by destruct (KeyValueTable._show_description self).
Qed.

Lemma foldl_add_row self items :
  let after := foldl (fun tbl item => KeyValueTable.add_row tbl (Some item))
                     self items in
  KeyValueTable.get_data after
  = KeyValueTable.get_data self
    ++ (as_stored (KeyValueTable._show_description self) <$> items)
  ∧ KeyValueTable._show_description after = KeyValueTable._show_description self
  ∧ KeyValueTable.data_changed after
    = (KeyValueTable.data_changed self + length items)%nat.
Proof.
  revert self. induction items as [|item items IH]; intros self; simpl.
  - by rewrite app_nil_r, Nat.add_0_r.
  - destruct (IH (KeyValueTable.add_row self (Some item))) as (Hd & Hs & Hc).
    rewrite Hd, Hs, Hc, get_data_add_row. simpl.
    rewrite <- app_assoc. split_and!; [done..|lia].
Qed.

Lemma get_dict_foldl (l : list KeyValueItem.t) (d : gmap (list N) (list N))
    (k : list N) :
  foldl (fun d item =>
           if KeyValueItem.enabled item && truthy (KeyValueItem.key item)
           then <[KeyValueItem.key item := KeyValueItem.value item]> d
           else d) d l !! k
  = if truthy k then
      match last (filter (fun item => KeyValueItem.enabled item = true
                                      ∧ KeyValueItem.key item = k) l) with
      | Some item => Some (KeyValueItem.value item)
      | None => d !! k
      end
    else d !! k.
Proof.
  induction l as [|item l IH] using rev_ind.
  { simpl. by destruct (truthy k). }
  rewrite foldl_snoc, filter_app.
  set (P := fun item0 => KeyValueItem.enabled item0 = true
                         ∧ KeyValueItem.key item0 = k).
  destruct (decide (P item)) as [[He Hk]|Hn].
  - rewrite (filter_cons_True P item []), filter_nil, last_snoc by done.
    rewrite He, Hk. simpl.
    by destruct (truthy k); [rewrite lookup_insert_eq|].
  - rewrite (filter_cons_False P item []), filter_nil, app_nil_r by done.
    destruct (KeyValueItem.enabled item && truthy (KeyValueItem.key item))
      eqn:Hc; [|done].
    rewrite lookup_insert_ne; [done|]. intros Hk. apply Hn. split; [|done].
    by apply andb_true_iff in Hc as [? _].
Qed.

End table_facts.

(** X9. What [set_data] puts into the table, [get_data] reads back, in
    order, whatever the table held before; the description of an item
    survives only in a table that shows descriptions.  One [data_changed]
    signal is emitted per item. *)
Theorem get_data_set_data (self : KeyValueTable.t)
    (items : list KeyValueItem.t) :
  KeyValueTable.get_data (KeyValueTable.set_data self items)
  = as_stored (KeyValueTable._show_description self) <$> items
  ∧ KeyValueTable.data_changed (KeyValueTable.set_data self items)
    = (KeyValueTable.data_changed self + length items)%nat.
Proof.
  unfold KeyValueTable.set_data.
  destruct (foldl_add_row
              {| KeyValueTable._show_description :=
                   KeyValueTable._show_description self;
                 KeyValueTable.table := [];
                 KeyValueTable.data_changed :=
                   KeyValueTable.data_changed self |} items)
    as (Hd & _ & Hc).
  by rewrite Hd, Hc.
Qed.

(** X10. [get_dict] binds a key to the value of the last enabled row that
    has this key; rows that are switched off, and rows with an empty key,
    never show in it. *)
Theorem get_dict_lookup (self : KeyValueTable.t) (k : list N) :
  KeyValueTable.get_dict self !! k
  = if truthy k then
      KeyValueItem.value
      <$> last (filter (fun item => KeyValueItem.enabled item = true
                                    ∧ KeyValueItem.key item = k)
                       (KeyValueTable.get_data self))
    else None.
Proof.
  unfold KeyValueTable.get_dict. rewrite get_dict_foldl, lookup_empty.
  destruct (truthy k); [|done]. by destruct (last _).
Qed.

(** X11. [remove_row] outside the rows of the table ([row] negative, or
    not below the number of rows) changes nothing and emits nothing;
    inside, it takes out that row and no other. *)
Theorem remove_row_bounds (self : KeyValueTable.t) (row : Z) :
  ((row < 0 ∨ Z.of_nat (length (KeyValueTable.table self)) ≤ row)%Z →
   KeyValueTable.remove_row self row = self)
  ∧ ((0 ≤ row < Z.of_nat (length (KeyValueTable.table self)))%Z →
     KeyValueTable.get_data (KeyValueTable.remove_row self row)
     = delete (Z.to_nat row) (KeyValueTable.get_data self)
     ∧ length (KeyValueTable.get_data (KeyValueTable.remove_row self row))
       = pred (length (KeyValueTable.get_data self))).
Proof.
  unfold KeyValueTable.remove_row. split.
  - intros Hout.
    destruct (Z.leb_spec 0 row), (Z.ltb_spec row
      (Z.of_nat (length (KeyValueTable.table self)))); simpl; try done; lia.
  - intros Hin.
    destruct (Z.leb_spec 0 row), (Z.ltb_spec row
      (Z.of_nat (length (KeyValueTable.table self)))); simpl; try lia.
    unfold KeyValueTable.get_data. simpl.
    rewrite list_fmap_delete. split; [done|].
    rewrite length_delete; [lia|].
    apply lookup_lt_is_Some. rewrite length_fmap. lia.
Qed.

Lemma remove_row_bounds_witness :
  KeyValueTable.remove_row
    (sample_table [(py "a", py "1", true); (py "b", py "2", true)]) 2
  = sample_table [(py "a", py "1", true); (py "b", py "2", true)]
  ∧ KeyValueTable.get_data
      (KeyValueTable.remove_row
         (sample_table [(py "a", py "1", true); (py "b", py "2", true)]) 0)
    = KeyValueTable.get_data (sample_table [(py "b", py "2", true)]).
Proof.
  destruct (remove_row_bounds
              (sample_table [(py "a", py "1", true); (py "b", py "2", true)]) 2)
    as [Hout _].
  destruct (remove_row_bounds
              (sample_table [(py "a", py "1", true); (py "b", py "2", true)]) 0)
    as [_ Hin].
  split.
  - apply Hout. right. vm_compute. by intros [=].
  - destruct Hin as [Hin _]; [by vm_compute|]. by rewrite Hin.
Defined.

(** ** Sending a request *)

Section send_facts.
Implicit Types (self : MainWindow.t) (panel : RequestPanel.t).

Lemma str_startswith_spec (s prefix : list N) :
  str_startswith s prefix = true ↔ ∃ rest, s = prefix ++ rest.
Proof.
  revert s. induction prefix as [|p prefix IH]; intros s.
  - split; [by exists s|by destruct s].
  - destruct s as [|c s]; simpl; [split; [done|by intros [? [=]]]|].
    rewrite andb_true_iff, IH, N.eqb_eq. split.
    + intros [-> [rest ->]]. by exists rest.
    + intros [rest [= -> ->]]. split; [done|by exists rest].
Qed.

(** The combo box gives a text that [HttpMethod] accepts. *)
Lemma of_value_value (m : HttpMethod.t) :
  HttpMethod.of_value (HttpMethod.value m) = Returned m.
Proof. by destruct m. Qed.

Lemma resolved_text_scheme (r : VariableResolver) (u : list N) :
  has_scheme u = true → has_scheme (resolved_text r u) = true.
Proof.
  unfold has_scheme. rewrite !orb_true_iff, !str_startswith_spec.
  intros [[rest ->]|[rest ->]]; [left|right];
    exists (resolved_text r rest);
    by rewrite resolved_text_lit_prefix by compute_done.
Qed.

Lemma truthy_nonempty (s : list N) : truthy s = true ↔ s ≠ [].
Proof.
  unfold truthy. rewrite negb_true_iff, bool_decide_eq_false. done.
Qed.

Lemma strip_truthy (s : list N) : truthy (strip s) = true → truthy s = true.
Proof. rewrite !truthy_nonempty. by intros Hs ->. Qed.

Lemma bind_Returned {A B} (a : A) (k : A → attempt B) :
  Returned a ≫= k = k a.
Proof. done. Qed.

(** [get_request_config] returns: the combo box gives a method, the
    tables their enabled rows, and the editor a body unless it is blank. *)
Lemma get_request_config_ok panel :
  let body := RequestPanel.body_editor panel in
  RequestPanel.get_request_config panel
  = Returned
      {| RequestConfig.method := UrlBar.method_combo (RequestPanel.url_bar panel);
         RequestConfig.url := UrlBar.url_input (RequestPanel.url_bar panel);
         RequestConfig.headers :=
           VStr <$> KeyValueTable.get_dict (RequestPanel.headers_table panel);
         RequestConfig.params :=
           VStr <$> KeyValueTable.get_dict (RequestPanel.params_table panel);
         RequestConfig.body := if truthy (strip body) then Some body else None;
         RequestConfig.body_type :=
           if truthy (strip body) then py "json" else py "none";
         RequestConfig.timeout := 30%float;
         RequestConfig.verify_ssl := true;
         RequestConfig.follow_redirects := true;
         RequestConfig.auth := None |}.
Proof.
  intros body. unfold RequestPanel.get_request_config, UrlBar.method.
  by rewrite of_value_value, bind_Returned.
Qed.

(** What [_send_request] hands over when it does send. *)
Lemma send_request_dispatched self :
  MainWindow._is_sending self = false →
  strip (UrlBar.url (RequestPanel.url_bar (MainWindow.request_panel self)))
  ≠ [] →
  MainWindow._send_request self
  = Returned (MainWindow.Dispatched (sent_window self) (sent_config self)).
Proof.
  intros Hs Hu. unfold sent_window, sent_config.
  set (panel := MainWindow.request_panel self).
  set (bar := RequestPanel.url_bar panel).
  set (r := MainWindow._resolver self).
  set (u := strip (UrlBar.url bar)).
  set (body := RequestPanel.body_editor panel). cbv zeta.
  unfold MainWindow._send_request. rewrite Hs.
  fold panel. fold bar. fold u.
  rewrite (proj2 (truthy_nonempty u) Hu). cbn [negb].
  fold (has_scheme u).
  destruct (has_scheme u) eqn:Hsch; cbn [negb];
    rewrite get_request_config_ok, bind_Returned;
    rewrite !resolve_ok, !resolve_dict_ok;
    cbn [of_result]; rewrite !bind_Returned;
    cbn [RequestConfig.body RequestPanel.body_editor RequestPanel.with_url_bar];
    fold body;
    (destruct (truthy (strip body)) eqn:Hb;
     [rewrite (strip_truthy _ Hb), resolve_ok; cbn [of_result];
      rewrite !bind_Returned|rewrite bind_Returned]);
    done.
Qed.

Lemma send_request_inv self window config :
  MainWindow._send_request self
  = Returned (MainWindow.Dispatched window config) →
  window = sent_window self ∧ config = sent_config self.
Proof.
  intros Hsend.
  destruct (MainWindow._is_sending self) eqn:Hs.
  { unfold MainWindow._send_request in Hsend. by rewrite Hs in Hsend. }
  destruct (decide (strip (UrlBar.url (RequestPanel.url_bar
              (MainWindow.request_panel self))) = [])) as [Hu|Hu].
  { unfold MainWindow._send_request in Hsend. by rewrite Hs, Hu in Hsend. }
  rewrite (send_request_dispatched self Hs Hu) in Hsend.
  by injection Hsend as <- <-.
Qed.

Lemma sent_config_has_scheme self :
  has_scheme (RequestConfig.url (sent_config self)) = true.
Proof.
  unfold sent_config. cbn [RequestConfig.url].
  destruct (has_scheme (strip _)) eqn:Hsch; [by apply resolved_text_scheme|].
  rewrite resolved_text_lit_prefix by compute_done.
  unfold has_scheme. apply orb_true_iff. right.
  apply str_startswith_spec. by eexists.
Qed.

End send_facts.

(** X12. [_send_request] always returns.  It does nothing while a request
    is under way; otherwise it warns, and sends nothing, when the URL is
    empty or blank; otherwise it sends, and the window is then in its
    sending state. *)
Theorem send_request_outcome (self : MainWindow.t) :
  let url := UrlBar.url (RequestPanel.url_bar (MainWindow.request_panel self)) in
  (MainWindow._is_sending self = true →
   MainWindow._send_request self = Returned MainWindow.Ignored)
  ∧ (MainWindow._is_sending self = false → strip url = [] →
     MainWindow._send_request self = Returned MainWindow.Warned)
  ∧ (MainWindow._is_sending self = false → strip url ≠ [] →
     ∃ window config,
       MainWindow._send_request self
       = Returned (MainWindow.Dispatched window config)
       ∧ MainWindow._is_sending window = true
       ∧ UrlBar._is_sending
           (RequestPanel.url_bar (MainWindow.request_panel window)) = true).
Proof.
  intros url. split_and!.
  - intros Hs. unfold MainWindow._send_request. by rewrite Hs.
  - intros Hs Hu. unfold MainWindow._send_request. rewrite Hs.
    fold url. by rewrite Hu.
  - intros Hs Hu. do 2 eexists. split; [by apply send_request_dispatched|done].
Qed.

Lemma send_request_outcome_witness :
  MainWindow._send_request (sample_window "   " "")
  = Returned MainWindow.Warned
  ∧ ∃ window config,
      MainWindow._send_request (sample_window " example.com/a " "")
      = Returned (MainWindow.Dispatched window config).
Proof.
  destruct (send_request_outcome (sample_window "   " "")) as (_ & Hw & _).
  destruct (send_request_outcome (sample_window " example.com/a " ""))
    as (_ & _ & Hd).
  split; [exact (Hw eq_refl eq_refl)|].
  destruct (Hd eq_refl ltac:(by vm_compute)) as (w & c & Heq & _).
  by exists w, c.
Defined.

(** X13. The URL of a request that is sent begins with [http://] or
    [https://], also after the variables in it have been resolved. *)
Theorem dispatched_url_has_scheme (self window : MainWindow.t)
    (config : RequestConfig.t) :
  MainWindow._send_request self
  = Returned (MainWindow.Dispatched window config) →
  has_scheme (RequestConfig.url config) = true.
Proof.
  intros [_ ->]%send_request_inv. apply sent_config_has_scheme.
Qed.

Lemma dispatched_url_has_scheme_witness :
  ∃ window config,
    MainWindow._send_request (sample_window "{{base}}/users" "")
    = Returned (MainWindow.Dispatched window config)
    ∧ has_scheme (RequestConfig.url config) = true.
Proof.
  destruct (MainWindow._send_request (sample_window "{{base}}/users" ""))
    as [[| |window config]|e] eqn:Hsend; try (vm_compute in Hsend; done).
  exists window, config. split; [done|].
  exact (dispatched_url_has_scheme _ window config Hsend).
Defined.

(** X14. The scheme is settled on the text of the URL bar, before any
    variable is resolved.  A trimmed text that begins with neither scheme
    gets [https://] put before it, in the URL bar too, and the URL sent is
    [https://] followed by the resolved text: a URL written [{{base}}/users]
    is sent with [https://] before the value of [base], whatever that
    value begins with.  A text that has a scheme stays in the URL bar as
    typed and is sent trimmed and resolved. *)
Theorem scheme_precedes_substitution (self window : MainWindow.t)
    (config : RequestConfig.t) :
  MainWindow._send_request self
  = Returned (MainWindow.Dispatched window config) →
  let typed :=
    UrlBar.url (RequestPanel.url_bar (MainWindow.request_panel self)) in
  let shown :=
    UrlBar.url (RequestPanel.url_bar (MainWindow.request_panel window)) in
  let r := MainWindow._resolver self in
  if has_scheme (strip typed)
  then shown = typed
       ∧ RequestConfig.url config = resolved_text r (strip typed)
  else shown = py "https://" ++ strip typed
       ∧ RequestConfig.url config
         = py "https://" ++ resolved_text r (strip typed).
Proof.
  intros [-> ->]%send_request_inv typed shown r. subst shown.
  unfold sent_config, sent_window.
  cbn [RequestConfig.url MainWindow.request_panel RequestPanel.url_bar
       UrlBar.url UrlBar.url_input].
  fold typed. fold r.
  destruct (has_scheme (strip typed)); [done|].
  by rewrite resolved_text_lit_prefix by compute_done.
Qed.

Lemma scheme_precedes_substitution_witness :
  ∃ window config,
    MainWindow._send_request (sample_window "{{base}}/users" "")
    = Returned (MainWindow.Dispatched window config)
    ∧ RequestConfig.url config = py "https://https://api.example.com/users".
Proof.
  destruct (MainWindow._send_request (sample_window "{{base}}/users" ""))
    as [[| |window config]|e] eqn:Hsend; try (vm_compute in Hsend; done).
  exists window, config. split; [done|].
  pose proof (scheme_precedes_substitution _ window config Hsend) as H.
  cbv zeta in H.
  change (has_scheme _) with false in H. destruct H as [_ ->].
  by vm_compute.
Defined.

(** X15. In a request that is sent, the headers and the parameters are
    the enabled rows of the two tables, with the keys as typed and the
    values resolved; the body is absent when the editor is blank, and
    otherwise the whole text of the editor, resolved, with the body type
    [json]. *)
Theorem dispatched_headers_and_body (self window : MainWindow.t)
    (config : RequestConfig.t) :
  MainWindow._send_request self
  = Returned (MainWindow.Dispatched window config) →
  let panel := MainWindow.request_panel self in
  let r := MainWindow._resolver self in
  let body := RequestPanel.body_editor panel in
  (∀ k, RequestConfig.headers config !! k
        = (fun v => VStr (resolved_text r v))
          <$> KeyValueTable.get_dict (RequestPanel.headers_table panel) !! k)
  ∧ (∀ k, RequestConfig.params config !! k
          = (fun v => VStr (resolved_text r v))
            <$> KeyValueTable.get_dict (RequestPanel.params_table panel) !! k)
  ∧ (strip body = [] →
     RequestConfig.body config = None
     ∧ RequestConfig.body_type config = py "none")
  ∧ (strip body ≠ [] →
     RequestConfig.body config = Some (resolved_text r body)
     ∧ RequestConfig.body_type config = py "json").
Proof.
  intros [_ ->]%send_request_inv panel r body. unfold sent_config.
  cbn [RequestConfig.headers RequestConfig.params RequestConfig.body
       RequestConfig.body_type].
  fold panel. fold r. fold body.
  split_and!.
  - intros k. rewrite !lookup_fmap. by destruct (_ !! k).
  - intros k. rewrite !lookup_fmap. by destruct (_ !! k).
  - intros Hb. by rewrite Hb.
  - intros Hb. by rewrite (proj2 (truthy_nonempty _) Hb).
Qed.

Lemma dispatched_headers_and_body_witness :
  ∃ window config,
    MainWindow._send_request (sample_window "example.com" " {{token}} ")
    = Returned (MainWindow.Dispatched window config)
    ∧ RequestConfig.headers config !! py "X-Key" = Some (VStr (py "{{id}}"))
    ∧ RequestConfig.params config !! py "q" = Some (VStr (py "abc123"))
    ∧ RequestConfig.params config !! py "debug" = None
    ∧ RequestConfig.body config = Some (py " abc123 ").
Proof.
  destruct (MainWindow._send_request (sample_window "example.com" " {{token}} "))
    as [[| |window config]|e] eqn:Hsend; try (vm_compute in Hsend; done).
  exists window, config. split; [done|].
  destruct (dispatched_headers_and_body _ window config Hsend)
    as (Hh & Hp & _ & Hb).
  split_and!.
  - etrans; [apply Hh|]. by vm_compute.
  - etrans; [apply Hp|]. by vm_compute.
  - etrans; [apply Hp|]. by vm_compute.
  - etrans; [apply Hb|]; by vm_compute.
Defined.

(** ** The executor *)

Section split_facts.
Implicit Types (s piece : list N) (sep : N).

Lemma str_split_nonempty sep s : str_split sep s ≠ [].
Proof.
  destruct s as [|c s]; simpl; [done|].
  destruct (c =? sep); [done|]. by destruct (str_split sep s).
Qed.

Lemma str_split_no_sep sep s : sep ∉ s → str_split sep s = [s].
Proof.
  induction s as [|c s IH]; intros Hs; [done|].
  apply not_elem_of_cons in Hs as [Hc Hs]. simpl.
  destruct (N.eqb_spec c sep); [congruence|]. by rewrite IH.
Qed.

Lemma str_split_app sep piece s :
  sep ∉ piece → str_split sep (piece ++ sep :: s) = piece :: str_split sep s.
Proof.
  induction piece as [|c piece IH]; intros Hp; simpl.
  - by rewrite N.eqb_refl.
  - apply not_elem_of_cons in Hp as [Hc Hp].
    destruct (N.eqb_spec c sep); [congruence|]. by rewrite IH.
Qed.

Lemma str_split_pieces sep s piece : piece ∈ str_split sep s → sep ∉ piece.
Proof.
  revert piece. induction s as [|c s IH]; intros piece; simpl.
  - intros ->%list_elem_of_singleton. apply not_elem_of_nil.
  - destruct (N.eqb_spec c sep) as [->|Hc].
    + intros [->|Hin]%elem_of_cons; [apply not_elem_of_nil|by apply IH].
    + pose proof (str_split_nonempty sep s) as Hne.
      destruct (str_split sep s) as [|p ps]; [done|].
      intros [->|Hin]%elem_of_cons.
      * apply not_elem_of_cons. split; [done|]. apply IH. by left.
      * apply IH. by right.
Qed.

Lemma str_split_join sep (pieces : list (list N)) :
  pieces ≠ [] → Forall (fun piece => sep ∉ piece) pieces →
  str_split sep (str_join [sep] pieces) = pieces.
Proof.
  induction pieces as [|piece pieces IH]; [done|]. intros _ Hall.
  apply Forall_cons in Hall as [Hp Hall].
  destruct pieces as [|q pieces]; [by apply str_split_no_sep|].
  cbn [str_join]. cbn [app]. rewrite str_split_app by done.
  f_equal. by apply IH.
Qed.

(** Cutting at the first separator: a text with a separator falls in two,
    the first part without one. *)
Lemma str_split1_cut sep s :
  sep ∈ s →
  ∃ k v, str_split1 sep s = [k; v] ∧ s = k ++ sep :: v ∧ sep ∉ k.
Proof.
  induction s as [|c s IH]; [by intros ?%elem_of_nil|]. simpl.
  destruct (N.eqb_spec c sep) as [->|Hc].
  - intros _. exists [], s. split_and!; [done..|apply not_elem_of_nil].
  - intros [?|Hin]%elem_of_cons; [congruence|].
    destruct (IH Hin) as (k & v & -> & -> & Hk).
    exists (c :: k), v. split_and!; [done..|].
    apply not_elem_of_cons. by split.
Qed.

Lemma str_split1_app sep k v :
  sep ∉ k → str_split1 sep (k ++ sep :: v) = [k; v].
Proof.
  induction k as [|c k IH]; intros Hk; simpl.
  - by rewrite N.eqb_refl.
  - apply not_elem_of_cons in Hk as [Hc Hk].
    destruct (N.eqb_spec c sep); [congruence|]. by rewrite IH.
Qed.

End split_facts.

Section executor_facts.
Context {json : Type} (json_loads : list N → option json).
Implicit Types (d : gmap (list N) (list N)) (pair body k v : list N).

Lemma add_pair_cut d k v : 61 ∉ k → add_pair d (k ++ 61 :: v) = <[k := v]> d.
Proof.
  intros Hk. unfold add_pair. rewrite str_split1_app by done.
  rewrite bool_decide_eq_true_2; [done|]. apply elem_of_app. right. by left.
Qed.

Lemma add_pair_skip d pair : 61 ∉ pair → add_pair d pair = d.
Proof. intros Hp. unfold add_pair. by rewrite bool_decide_eq_false_2. Qed.

Lemma add_pair_cases d pair :
  ((61 ∉ pair) ∧ add_pair d pair = d)
  ∨ ∃ k v, pair = k ++ 61 :: v ∧ (61 ∉ k) ∧ add_pair d pair = <[k := v]> d.
Proof.
  destruct (decide (61 ∈ pair)) as [Hin|Hnin].
  - right. destruct (str_split1_cut 61 pair Hin) as (k & v & _ & -> & Hk).
    exists k, v. split_and!; [done..|]. by apply add_pair_cut.
  - left. split; [done|]. by apply add_pair_skip.
Qed.

(** The unpacking [key, value = pair.split('=', 1)] never fails: the loop
    over the pairs runs to its end. *)
Lemma parse_pairs_ok (pieces : list (list N)) d :
  foldl
    (fun acc pair =>
       d ← acc;
       if bool_decide (61 ∈ pair) then
         match str_split1 61 pair with
         | [k; v] => Returned (<[k := v]> d)
         | _ => Crashed ValueError
         end
       else Returned d)
    (Returned d) pieces
  = Returned (foldl add_pair d pieces).
Proof.
  revert d. induction pieces as [|pair pieces IH]; intros d; [done|].
  cbn [foldl]. rewrite bind_Returned.
  replace (if bool_decide (61 ∈ pair) then _ else _)
    with (Returned (A := gmap (list N) (list N)) (add_pair d pair));
    [apply IH|].
  unfold add_pair. case_bool_decide as Hin; [|done].
  by destruct (str_split1_cut 61 pair Hin) as (k & v & -> & _).
Qed.

Lemma parse_form_data_fallback_ok body :
  json_loads body = None →
  _parse_form_data json_loads body
  = Returned (inr (foldl add_pair ∅ (str_split 38 body))).
Proof.
  intros Hj. unfold _parse_form_data. rewrite Hj.
  by rewrite parse_pairs_ok, bind_Returned.
Qed.

Lemma parse_form_data_returns body :
  ∃ r, _parse_form_data json_loads body = Returned r.
Proof.
  destruct (json_loads body) as [j|] eqn:Hj.
  - exists (inl j). unfold _parse_form_data. by rewrite Hj.
  - eexists. by apply parse_form_data_fallback_ok.
Qed.

Lemma foldl_add_pair_sound (pieces : list (list N)) d k v :
  foldl add_pair d pieces !! k = Some v →
  d !! k = Some v ∨ ((k ++ 61 :: v) ∈ pieces ∧ 61 ∉ k).
Proof.
  revert d. induction pieces as [|pair pieces IH]; intros d; [by left|].
  cbn [foldl]. intros [Hd|[Hin Hk]]%IH; [|right; split; [by right|done]].
  destruct (add_pair_cases d pair) as [[_ Heq]|(k' & v' & -> & Hk' & Heq)];
    rewrite Heq in Hd; [by left|].
  destruct (decide (k' = k)) as [->|Hne].
  - rewrite lookup_insert_eq in Hd. injection Hd as ->.
    right. split; [by left|done].
  - rewrite lookup_insert_ne in Hd by done. by left.
Qed.

Lemma foldl_add_pair_keeps (pieces : list (list N)) d k :
  is_Some (d !! k) → is_Some (foldl add_pair d pieces !! k).
Proof.
  revert d. induction pieces as [|pair pieces IH]; intros d Hd; [done|].
  cbn [foldl]. apply IH.
  destruct (add_pair_cases d pair) as [[_ ->]|(k' & v' & _ & _ & ->)]; [done|].
  rewrite lookup_insert. by case_decide.
Qed.

Lemma foldl_add_pair_complete (pieces : list (list N)) d pair :
  pair ∈ pieces → 61 ∈ pair →
  ∃ k v, pair = k ++ 61 :: v ∧ (61 ∉ k)
         ∧ is_Some (foldl add_pair d pieces !! k).
Proof.
  revert d. induction pieces as [|p pieces IH]; intros d;
    [by intros ?%elem_of_nil|].
  intros [->|Hin]%elem_of_cons Heq; [|by apply IH].
  destruct (add_pair_cases d p) as [[? _]|(k & v & -> & Hk & Hadd)]; [done|].
  exists k, v. split_and!; [done..|]. cbn [foldl].
  apply foldl_add_pair_keeps. rewrite Hadd, lookup_insert_eq. by eexists.
Qed.

Lemma foldl_insert_pairs (kvs : list (list N * list N)) :
  foldl (fun d kv => <[kv.1 := kv.2]> d) (∅ : gmap (list N) (list N)) kvs
  = list_to_map (reverse kvs).
Proof.
  induction kvs as [|kv kvs IH] using rev_ind; [done|].
  by rewrite foldl_snoc, reverse_snoc, IH.
Qed.



Lemma content_type_default_lookup (v : list N) (headers : gmap pykey pyval)
    (key : pykey) :
  content_type_default v headers !! key
  = if decide (key = KStr (py "Content-Type"))
    then Some (default (VStr v) (headers !! key))
    else headers !! key.
Proof.
  unfold content_type_default.
  case_bool_decide as Hc; case_decide as Hn; subst.
  - destruct Hc as [x ->]. done.
  - done.
  - rewrite lookup_insert_eq.
    destruct (headers !! KStr (py "Content-Type")) eqn:Hh; [|done].
    destruct Hc. by eexists.
  - by rewrite lookup_insert_ne.
Qed.

End executor_facts.

Section form_facts.
Context {json : Type} (json_loads : list N → option json).

Lemma foldl_add_pair_form (kvs : list (list N * list N))
    (d : gmap (list N) (list N)) :
  Forall (fun kv => 61 ∉ kv.1) kvs →
  foldl add_pair d (form_pair <$> kvs)
  = foldl (fun d kv => <[kv.1 := kv.2]> d) d kvs.
Proof.
  revert d. induction kvs as [|[k v] kvs IH]; intros d Hall; [done|].
  apply Forall_cons in Hall as [Hk Hall]. cbn [fmap list_fmap foldl].
  unfold form_pair at 1. cbn [fst snd]. rewrite add_pair_cut by done.
  by apply IH.
Qed.

End form_facts.

(** X16. The text [key=value&key2=value2] is read back as its pairs, a
    later pair replacing an earlier one with the same key, provided
    [json.loads] rejects the text, no key holds [=] or [&] and no value
    holds [&].  A value may hold [=]: a pair is cut at its first [=]. *)
Theorem parse_form_data_round_trip {json : Type}
    (json_loads : list N → option json) (kvs : list (list N * list N)) :
  Forall (fun kv => (61 ∉ kv.1) ∧ (38 ∉ kv.1) ∧ (38 ∉ kv.2)) kvs →
  json_loads (form_text kvs) = None →
  _parse_form_data json_loads (form_text kvs)
  = Returned (inr (list_to_map (reverse kvs))).
Proof.
  intros Hall Hj. rewrite parse_form_data_fallback_ok by done.
  do 2 f_equal. rewrite <- foldl_insert_pairs. unfold form_text.
  destruct kvs as [|kv kvs]; [done|].
  rewrite str_split_join.
  - apply foldl_add_pair_form. eapply Forall_impl; [done|]. by intros ? [? _].
  - done.
  - apply Forall_fmap. eapply Forall_impl; [done|].
    intros [k v] (_ & Hk & Hv). unfold form_pair. cbn.
    rewrite elem_of_app, elem_of_cons. intros [?|[[=]|?]]; done.
Qed.

Lemma parse_form_data_round_trip_witness :
  _parse_form_data no_json (py "a=1&b=x=y&a=2")
  = Returned (inr {[ py "a" := py "2"; py "b" := py "x=y" ]}).
Proof.
  etrans; [|by vm_compute].
  exact (parse_form_data_round_trip no_json
           [(py "a", py "1"); (py "b", py "x=y"); (py "a", py "2")]
           ltac:(compute_done) eq_refl).
Defined.

(** X17. When [json.loads] rejects the text, [_parse_form_data] returns a
    dictionary (the unpacking of a cut pair never fails) in which every
    entry [k: v] comes from a piece [k=v] of the text between two [&],
    cut at its first [=], so that [k] holds neither [=] nor [&] and [v]
    no [&]; and every piece with a [=] in it gives its key to the
    dictionary.  Pieces without [=] are left out, and nothing is
    decoded. *)
Theorem parse_form_data_fallback {json : Type}
    (json_loads : list N → option json) (body : list N) :
  json_loads body = None →
  ∃ d : gmap (list N) (list N),
    _parse_form_data json_loads body = Returned (inr d)
    ∧ (∀ k v, d !! k = Some v →
         (k ++ 61 :: v) ∈ str_split 38 body
         ∧ (61 ∉ k) ∧ (38 ∉ k) ∧ (38 ∉ v))
    ∧ (∀ pair, pair ∈ str_split 38 body → 61 ∈ pair →
         ∃ k v, pair = k ++ 61 :: v ∧ (61 ∉ k) ∧ is_Some (d !! k)).
Proof.
  intros Hj. eexists. split; [by apply parse_form_data_fallback_ok|]. split.
  - intros k v [Hd|[Hin Hk]]%foldl_add_pair_sound; [done|].
    pose proof (str_split_pieces _ _ _ Hin) as Hamp.
    rewrite elem_of_app, elem_of_cons in Hamp.
    split_and!; [done..| |]; intros ?; apply Hamp; auto.
  - intros pair Hin Heq. by apply foldl_add_pair_complete.
Qed.

Lemma parse_form_data_fallback_witness :
  ∃ d : gmap (list N) (list N),
    _parse_form_data no_json (py "a=1&flag&b=") = Returned (inr d)
    ∧ (∀ k v, d !! k = Some v →
         (k ++ 61 :: v) ∈ str_split 38 (py "a=1&flag&b=")
         ∧ (61 ∉ k) ∧ (38 ∉ k) ∧ (38 ∉ v))
    ∧ (∀ pair, pair ∈ str_split 38 (py "a=1&flag&b=") → 61 ∈ pair →
         ∃ k v, pair = k ++ 61 :: v ∧ (61 ∉ k) ∧ is_Some (d !! k)).
Proof.
  exact (parse_form_data_fallback no_json (py "a=1&flag&b=") eq_refl).
Defined.

(** Two different strings under one key. *)
Ltac clash :=
  match goal with
  | H1 : ?o = Some (VStr ?a), H2 : ?o = Some (VStr ?b) |- _ =>
      rewrite H1 in H2; vm_compute in H2; done
  end.

Section auth_facts.
Context {httpx_auth : Type} (BasicAuth : pyval → pyval → attempt httpx_auth).
Context (py_str : pyval → list N).
Implicit Types (auth_config : gmap (list N) pyval) (headers : gmap pykey pyval).

Lemma eq_str_true (v : pyval) (s : list N) : eq_str v s = true ↔ v = VStr s.
Proof.
  destruct v as [| | |t|]; simpl; try (split; [done|by intros [=]]).
  rewrite bool_decide_eq_true. split; [by intros ->|by intros [= ->]].
Qed.

Lemma eq_str_false (v : pyval) (s : list N) : eq_str v s = false ↔ v ≠ VStr s.
Proof. rewrite <- eq_str_true. by destruct (eq_str v s). Qed.

Lemma eq_str_default (o : option pyval) (s : list N) :
  eq_str (default VNone o) s = true ↔ o = Some (VStr s).
Proof.
  rewrite eq_str_true. destruct o as [v|]; simpl; [|done].
  split; [by intros ->|by intros [= ->]].
Qed.


(** What [_build_auth] does, branch by branch. *)
Lemma build_auth_cases auth_config headers :
  let type := auth_config !! py "type" in
  let add_to := default (VStr (py "header")) (auth_config !! py "add_to") in
  (type = Some (VStr (py "basic"))
   ∧ _build_auth BasicAuth py_str auth_config headers
     = (auth ← BasicAuth (default (VStr []) (auth_config !! py "username"))
                         (default (VStr []) (auth_config !! py "password"));
        Returned (Some auth, headers)))
  ∨ (type = Some (VStr (py "bearer"))
     ∧ _build_auth BasicAuth py_str auth_config headers
       = Returned
           (None,
            <[KStr (py "Authorization") :=
                VStr (py "Bearer "
                      ++ format_value py_str
                           (default (VStr []) (auth_config !! py "token")))]>
              headers))
  ∨ (type = Some (VStr (py "api_key")) ∧ add_to = VStr (py "header")
     ∧ _build_auth BasicAuth py_str auth_config headers
       = (k ← to_key (default (VStr []) (auth_config !! py "key"));
          Returned
            (None, <[k := default (VStr []) (auth_config !! py "value")]>
                     headers)))
  ∨ (type ≠ Some (VStr (py "basic"))
     ∧ (type = Some (VStr (py "api_key")) → add_to ≠ VStr (py "header"))
     ∧ type ≠ Some (VStr (py "bearer"))
     ∧ _build_auth BasicAuth py_str auth_config headers
       = Returned (None, headers)).
Proof.
  intros type add_to. unfold _build_auth. fold type. fold add_to.
  destruct (eq_str (default VNone type) (py "basic")) eqn:Hbasic.
  { left. by apply eq_str_default in Hbasic. }
  assert (type ≠ Some (VStr (py "basic"))) as Hnb.
  { intros Heq%eq_str_default. congruence. }
  destruct (eq_str (default VNone type) (py "bearer")) eqn:Hbearer.
  { right; left. by apply eq_str_default in Hbearer. }
  assert (type ≠ Some (VStr (py "bearer"))) as Hnr.
  { intros Heq%eq_str_default. congruence. }
  destruct (eq_str (default VNone type) (py "api_key")) eqn:Hkey.
  - apply eq_str_default in Hkey.
    destruct (eq_str add_to (py "header")) eqn:Hadd.
    + do 2 right; left. by apply eq_str_true in Hadd.
    + do 3 right. apply eq_str_false in Hadd. by split_and!.
  - do 3 right. split_and!; [done| |done..].
    intros Heq%eq_str_default. congruence.
Qed.



End auth_facts.

(** X18. When [_build_auth] returns, it has built an authentication object
    for the type [basic] and for no other, and then it has left the
    headers alone.  It never takes a header away, and the headers it
    returns differ from those it was given on at most one key. *)
Theorem build_auth_frame {httpx_auth : Type}
    (BasicAuth : pyval → pyval → attempt httpx_auth)
    (py_str : pyval → list N)
    (auth_config : gmap (list N) pyval) (headers : gmap pykey pyval)
    (auth : option httpx_auth) (headers' : gmap pykey pyval) :
  _build_auth BasicAuth py_str auth_config headers = Returned (auth, headers') →
  (is_Some auth ↔ auth_config !! py "type" = Some (VStr (py "basic")))
  ∧ (is_Some auth → headers' = headers)
  ∧ (∀ key, is_Some (headers !! key) → is_Some (headers' !! key))
  ∧ (∃ written, ∀ key, key ≠ written → headers' !! key = headers !! key).
Proof.
  destruct (build_auth_cases BasicAuth py_str auth_config headers)
    as [[Ht ->]|[[Ht ->]|[(Ht & Hadd & ->)|(Hnb & Hna & Hnr & ->)]]].
  - destruct (BasicAuth _ _) as [a|]; [|done]. intros [= <- <-].
    split_and!; [done..|by exists KNone].
  - intros [= <- <-]. split_and!.
    + split; [by intros [? [=]]|intros Ht'; clash].
    + by intros [? [=]].
    + intros key Hk. rewrite lookup_insert. by case_decide.
    + eexists. intros key Hk. by rewrite lookup_insert_ne.
  - destruct (to_key _) as [k|]; [|done]. intros [= <- <-]. split_and!.
    + split; [by intros [? [=]]|intros Ht'; clash].
    + by intros [? [=]].
    + intros key Hk. rewrite lookup_insert. by case_decide.
    + exists k. intros key Hk. by rewrite lookup_insert_ne.
  - intros [= <- <-]. split_and!; [|by intros [? [=]]|done|by exists KNone].
    split; [by intros [? [=]]|done].
Qed.

Lemma build_auth_frame_witness :
  ∃ auth headers',
    _build_auth basic_auth str_of_constant
      {[ py "type" := VStr (py "basic"); py "username" := VStr (py "user");
         py "password" := VStr (py "pw") ]}
      {[ KStr (py "Accept") := VStr (py "*/*") ]}
    = Returned (auth, headers')
    ∧ is_Some auth
    ∧ headers' = {[ KStr (py "Accept") := VStr (py "*/*") ]}.
Proof.
  destruct (_build_auth basic_auth str_of_constant
              {[ py "type" := VStr (py "basic");
                 py "username" := VStr (py "user");
                 py "password" := VStr (py "pw") ]}
              {[ KStr (py "Accept") := VStr (py "*/*") ]})
    as [[auth headers']|e] eqn:Hb; [|vm_compute in Hb; done].
  exists auth, headers'. split; [done|].
  destruct (build_auth_frame _ _ _ _ _ _ Hb) as (Hauth & Hsame & _).
  assert (is_Some auth) as Hsome by (by apply Hauth).
  split; [done|by apply Hsame].
Defined.



Section kwargs_facts.
Context {json : Type} (json_loads : list N → option json).
Context {httpx_auth : Type} (BasicAuth : pyval → pyval → attempt httpx_auth).
Context (py_str : pyval → list N).
Implicit Types (config : RequestConfig.t) (headers : gmap pykey pyval).

(** What the body block returns, case by case. *)
Lemma body_options_cases config headers :
  let body_type := RequestConfig.body_type config in
  (∃ body, RequestConfig.body config = Some body ∧ body ≠ []
     ∧ body_type ≠ py "none" ∧ body_type ≠ py "form"
     ∧ body_type ≠ py "urlencoded"
     ∧ match encode_utf8 body with
       | Some bytes =>
           body_options json_loads config headers
           = Returned (if bool_decide (body_type = py "json")
                       then content_type_default (py "application/json") headers
                       else headers, Some bytes, None)
       | None =>
           body_options json_loads config headers = Crashed UnicodeEncodeError
       end)
  ∨ (∃ body parsed, RequestConfig.body config = Some body ∧ body ≠ []
       ∧ (body_type = py "form" ∨ body_type = py "urlencoded")
       ∧ _parse_form_data json_loads body = Returned parsed
       ∧ body_options json_loads config headers
         = Returned (if bool_decide (body_type = py "urlencoded")
                     then content_type_default
                            (py "application/x-www-form-urlencoded") headers
                     else headers, None, Some parsed))
  ∨ ((RequestConfig.body config = None ∨ RequestConfig.body config = Some []
      ∨ body_type = py "none")
     ∧ body_options json_loads config headers = Returned (headers, None, None)).
Proof.
  intros body_type. unfold body_options. fold body_type.
  destruct (RequestConfig.body config) as [body|]; [|by do 2 right; split; [left|]].
  destruct (truthy body) eqn:Ht; cbn [andb];
    [|do 2 right; split; [|done]; right; left;
      apply negb_false_iff, bool_decide_eq_true in Ht; by subst].
  apply truthy_nonempty in Ht.
  case_bool_decide as Hnone; cbn [negb];
    [do 2 right; split; [|done]; by do 2 right|].
  case_bool_decide as Hjson.
  { left. exists body. rewrite Hjson. split_and!; try done.
    by destruct (encode_utf8 body). }
  case_bool_decide as Hform.
  { right; left. destruct (parse_form_data_returns json_loads body) as [r Hr].
    exists body, r. rewrite Hr, Hform. split_and!; try done. by left. }
  case_bool_decide as Hurl.
  { right; left. destruct (parse_form_data_returns json_loads body) as [r Hr].
    exists body, r. rewrite Hr, Hurl. split_and!; try done. by right. }
  left. exists body. split_and!; try done. by destruct (encode_utf8 body).
Qed.


Lemma execute_kwargs_inv config (kw : RequestKwargs.t json httpx_auth) :
  execute_kwargs json_loads BasicAuth py_str config = Returned kw →
  ∃ headers content data,
    body_options json_loads config (kmap KStr (RequestConfig.headers config))
    = Returned (headers, content, data)
    ∧ auth_options BasicAuth py_str config headers
      = Returned (RequestKwargs.auth kw, RequestKwargs.headers kw)
    ∧ RequestKwargs.content kw = content
    ∧ RequestKwargs.data kw = data
    ∧ RequestKwargs.url kw = RequestConfig.url config
    ∧ RequestKwargs.params kw = RequestConfig.params config.
Proof.
  unfold execute_kwargs.
  destruct (body_options _ _ _) as [[[headers content] data]|e]; [|done].
  rewrite bind_Returned.
  destruct (auth_options _ _ config headers) as [[auth h']|e] eqn:Ha; [|done].
  rewrite bind_Returned. intros [= <-]. by exists headers, content, data.
Qed.

Lemma auth_options_None config headers :
  RequestConfig.auth config = None →
  auth_options BasicAuth py_str config headers = Returned (None, headers).
Proof. unfold auth_options. by intros ->. Qed.

End kwargs_facts.

Ltac returned_triple H :=
  match type of H with
  | Returned (?a, ?b, ?c) = Returned (?x, ?y, ?z) =>
      assert (x = a) as -> by congruence;
      assert (y = b) as -> by congruence;
      assert (z = c) as -> by congruence;
      clear H
  end.

(** X20. Without authentication settings, [execute] sends every header of
    the configuration as it is, under its name.  The one header it may add
    is [Content-Type], when the configuration has none under this very
    spelling and the body is sent as [json] or [urlencoded]; a
    [Content-Type] of the caller is never replaced. *)
Theorem execute_kwargs_headers {json httpx_auth : Type}
    (json_loads : list N → option json)
    (BasicAuth : pyval → pyval → attempt httpx_auth)
    (py_str : pyval → list N) (config : RequestConfig.t)
    (kw : RequestKwargs.t json httpx_auth) :
  RequestConfig.auth config = None →
  execute_kwargs json_loads BasicAuth py_str config = Returned kw →
  (∀ name v, RequestConfig.headers config !! name = Some v →
             RequestKwargs.headers kw !! KStr name = Some v)
  ∧ (∀ key, RequestKwargs.headers kw !! key
            ≠ (kmap KStr (RequestConfig.headers config) : gmap pykey pyval)
              !! key →
       key = KStr (py "Content-Type")
       ∧ RequestConfig.headers config !! py "Content-Type" = None
       ∧ ((RequestConfig.body_type config = py "json"
           ∧ RequestKwargs.headers kw !! key
             = Some (VStr (py "application/json")))
          ∨ (RequestConfig.body_type config = py "urlencoded"
             ∧ RequestKwargs.headers kw !! key
               = Some (VStr (py "application/x-www-form-urlencoded"))))).
Proof.
  intros Hauth (headers & content & data & Hbody & Hh & _)%execute_kwargs_inv.
  rewrite auth_options_None in Hh by done.
  assert (RequestKwargs.headers kw = headers) as -> by congruence.
  clear Hh kw Hauth.
  set (copy := kmap KStr (RequestConfig.headers config) : gmap pykey pyval)
    in *.
  assert (∀ name, copy !! KStr name = RequestConfig.headers config !! name)
    as Hcopy by (intros name; apply lookup_kmap, _).
  assert (∀ v,
    (∀ name w, RequestConfig.headers config !! name = Some w →
               content_type_default v copy !! KStr name = Some w)
    ∧ (∀ key, content_type_default v copy !! key ≠ copy !! key →
         key = KStr (py "Content-Type")
         ∧ RequestConfig.headers config !! py "Content-Type" = None
         ∧ content_type_default v copy !! key = Some (VStr v))) as Hdefault.
  { intros v. split.
    - intros name w Hn. rewrite content_type_default_lookup.
      case_decide; [|by rewrite Hcopy]. by rewrite Hcopy, Hn.
    - intros key. rewrite content_type_default_lookup.
      case_decide as Hkey; [|done]. subst key. rewrite Hcopy.
      destruct (RequestConfig.headers config !! py "Content-Type"); [done|].
      done. }
  assert (∀ name w, RequestConfig.headers config !! name = Some w →
                    copy !! KStr name = Some w) as Hplain
    by (intros name w Hn; by rewrite Hcopy).
  destruct (body_options_cases json_loads config copy)
    as [(body & _ & _ & _ & _ & _ & Hcase)
       |[(body & parsed & _ & _ & Htype & _ & Hcase)|[_ Hcase]]].
  - destruct (encode_utf8 body); rewrite Hcase in Hbody; [|done].
    returned_triple Hbody.
    case_bool_decide as Hjson; [|split; [done|by intros ? []]].
    destruct (Hdefault (py "application/json")) as [Hkeep Hadd].
    split; [done|]. intros key (-> & Hnone & Hct)%Hadd.
    split_and!; [done..|]. by left.
  - rewrite Hcase in Hbody. returned_triple Hbody.
    case_bool_decide as Hurl; [|split; [done|by intros ? []]].
    destruct (Hdefault (py "application/x-www-form-urlencoded"))
      as [Hkeep Hadd].
    split; [done|]. intros key (-> & Hnone & Hct)%Hadd.
    split_and!; [done..|]. by right.
  - rewrite Hcase in Hbody. returned_triple Hbody.
    split; [done|by intros ? []].
Qed.

Lemma execute_kwargs_headers_witness :
  ∃ kw,
    execute_kwargs no_json basic_auth str_of_constant
      (sample_config "json" "{}" None) = Returned kw
    ∧ RequestKwargs.headers kw !! KStr (py "Accept") = Some (VStr (py "*/*")).
Proof.
  destruct (execute_kwargs no_json basic_auth str_of_constant
              (sample_config "json" "{}" None))
    as [kw|e] eqn:Hkw; [|vm_compute in Hkw; done].
  exists kw. split; [done|].
  exact (proj1 (execute_kwargs_headers no_json basic_auth str_of_constant
                  (sample_config "json" "{}" None) kw eq_refl Hkw)
           (py "Accept") (VStr (py "*/*")) eq_refl).
Defined.

(** X21. [execute] gives the client a [content] or a [data] argument, never
    both, and only for a body that is not empty with a body type other
    than [none]: the [content] is the UTF-8 encoding of the body, the
    [data] what [_parse_form_data] makes of it, for the types [form] and
    [urlencoded] alone.  The URL and the parameters go through as they
    are. *)
Theorem execute_kwargs_body {json httpx_auth : Type}
    (json_loads : list N → option json)
    (BasicAuth : pyval → pyval → attempt httpx_auth)
    (py_str : pyval → list N) (config : RequestConfig.t)
    (kw : RequestKwargs.t json httpx_auth) :
  execute_kwargs json_loads BasicAuth py_str config = Returned kw →
  RequestKwargs.url kw = RequestConfig.url config
  ∧ RequestKwargs.params kw = RequestConfig.params config
  ∧ (RequestKwargs.content kw = None ∨ RequestKwargs.data kw = None)
  ∧ (∀ bytes, RequestKwargs.content kw = Some bytes →
       ∃ body, RequestConfig.body config = Some body ∧ body ≠ []
               ∧ encode_utf8 body = Some bytes
               ∧ RequestConfig.body_type config ≠ py "none"
               ∧ RequestConfig.body_type config ≠ py "form"
               ∧ RequestConfig.body_type config ≠ py "urlencoded")
  ∧ (∀ parsed, RequestKwargs.data kw = Some parsed →
       ∃ body, RequestConfig.body config = Some body ∧ body ≠ []
               ∧ _parse_form_data json_loads body = Returned parsed
               ∧ (RequestConfig.body_type config = py "form"
                  ∨ RequestConfig.body_type config = py "urlencoded")).
Proof.
  intros (headers & content & data & Hbody & _ & -> & -> & -> & ->)
    %execute_kwargs_inv.
  split; [done|]. split; [done|].
  destruct (body_options_cases json_loads config
              (kmap KStr (RequestConfig.headers config)))
    as [(body & Hb & Hne & Hn & Hf & Hu & Hcase)
       |[(body & parsed & Hb & Hne & Htype & Hp & Hcase)|[_ Hcase]]].
  - destruct (encode_utf8 body) as [bytes|] eqn:He;
      rewrite Hcase in Hbody; [|done].
    returned_triple Hbody. split_and!; [by right| |done].
    intros ? [= <-]. by exists body.
  - rewrite Hcase in Hbody. returned_triple Hbody.
    split_and!; [by left|done|]. intros ? [= <-]. by exists body.
  - rewrite Hcase in Hbody. returned_triple Hbody.
    split_and!; [by left|done..].
Qed.

Lemma execute_kwargs_body_witness :
  ∃ kw,
    execute_kwargs no_json basic_auth str_of_constant
      (sample_config "raw" "a=1" None) = Returned kw
    ∧ (RequestKwargs.content kw = None ∨ RequestKwargs.data kw = None)
    ∧ ∃ body, RequestConfig.body (sample_config "raw" "a=1" None) = Some body
              ∧ encode_utf8 body = Some (py "a=1").
Proof.
  destruct (execute_kwargs no_json basic_auth str_of_constant
              (sample_config "raw" "a=1" None))
    as [kw|e] eqn:Hkw; [|vm_compute in Hkw; done].
  exists kw. split; [done|].
  destruct (execute_kwargs_body no_json basic_auth str_of_constant
              (sample_config "raw" "a=1" None) kw Hkw)
    as (_ & _ & Hone & Hcontent & _).
  split; [done|].
  destruct (Hcontent (py "a=1")) as (body & Hb & _ & He & _).
  { vm_compute in Hkw. by injection Hkw as <-. }
  by exists body.
Defined.



(** X23. From the window to the client.  A request sent from the window
    carries no [data] and no authentication, and a URL with a scheme.  Its
    [content] is the UTF-8 encoding of the resolved text of the body
    editor, unless the editor is blank or that resolved text is empty (a
    body made of tokens that resolve to nothing is not sent). *)
Theorem window_request {json httpx_auth : Type}
    (json_loads : list N → option json)
    (BasicAuth : pyval → pyval → attempt httpx_auth)
    (py_str : pyval → list N)
    (self window : MainWindow.t) (config : RequestConfig.t)
    (kw : RequestKwargs.t json httpx_auth) :
  MainWindow._send_request self
  = Returned (MainWindow.Dispatched window config) →
  execute_kwargs json_loads BasicAuth py_str config = Returned kw →
  let body := RequestPanel.body_editor (MainWindow.request_panel self) in
  let sent := resolved_text (MainWindow._resolver self) body in
  RequestKwargs.data kw = None
  ∧ RequestKwargs.auth kw = None
  ∧ has_scheme (RequestKwargs.url kw) = true
  ∧ RequestKwargs.content kw
    = if truthy (strip body) && truthy sent then encode_utf8 sent else None.
Proof.
  intros [_ ->]%send_request_inv
    (headers & content & data & Hbody & Hauth & -> & -> & Hurl & _)
    %execute_kwargs_inv body sent.
  rewrite auth_options_None in Hauth by done.
  assert (RequestKwargs.auth kw = None) as -> by congruence.
  rewrite Hurl, sent_config_has_scheme. clear Hurl Hauth.
  unfold body_options, sent_config in Hbody.
  cbn [RequestConfig.body RequestConfig.body_type] in Hbody.
  fold body in Hbody. fold sent in Hbody.
  destruct (truthy (strip body)); cbn [andb].
  - rewrite (bool_decide_eq_false_2 (py "json" = py "none")) in Hbody by done.
    rewrite (bool_decide_eq_true_2 (py "json" = py "json")) in Hbody by done.
    destruct (truthy sent); cbn [andb negb] in Hbody |- *.
    + destruct (encode_utf8 sent); [|done].
      rewrite bind_Returned in Hbody. by returned_triple Hbody.
    + by returned_triple Hbody.
  - by returned_triple Hbody.
Qed.

Lemma window_request_witness :
  ∃ window config kw,
    MainWindow._send_request (sample_window "example.com" "{{  }}")
    = Returned (MainWindow.Dispatched window config)
    ∧ execute_kwargs no_json basic_auth str_of_constant config = Returned kw
    ∧ RequestKwargs.content kw = Some (py "{{}}").
Proof.
  destruct (MainWindow._send_request (sample_window "example.com" "{{  }}"))
    as [[| |window config]|e] eqn:Hsend; try (vm_compute in Hsend; done).
  destruct (execute_kwargs no_json basic_auth str_of_constant config)
    as [kw|e] eqn:Hkw.
  2:{ apply send_request_inv in Hsend as [_ ->]. vm_compute in Hkw. done. }
  exists window, config, kw. split_and!; [done..|].
  etrans; [exact (proj2 (proj2 (proj2
             (window_request no_json basic_auth str_of_constant _ window
                config kw Hsend Hkw))))|].
  by vm_compute.
Defined.

(** ** The history list and the line numbers *)

Section history_facts.
Context {History : Type}.
Implicit Types (items : list History).

Lemma removelast_take items :
  items ≠ [] → removelast items = take (pred (length items)) items.
Proof.
  induction items as [|x items IH]; [done|]. intros _.
  destruct items as [|y items]; [done|].
  cbn [removelast length pred take]. f_equal. by apply IH.
Qed.

Lemma drop_excess_take (fuel : nat) items :
  (length items ≤ 100 + fuel)%nat →
  HistoryPanel.drop_excess fuel items = take 100 items.
Proof.
  revert items. induction fuel as [|fuel IH]; intros items Hlen; simpl.
  - by rewrite take_ge by lia.
  - destruct (Nat.ltb_spec 100 (length items)) as [Hgt|Hle];
      [|by rewrite take_ge by lia].
    rewrite IH.
    + rewrite removelast_take by (intros ->; simpl in Hgt; lia).
      rewrite take_take. f_equal. lia.
    + rewrite removelast_take by (intros ->; simpl in Hgt; lia).
      rewrite length_take. lia.
Qed.

End history_facts.

(** X24. After [add_history] the list shows the new entry first, then the
    entries it showed before in their order, and never more than 100: the
    oldest ones are dropped. *)
Theorem add_history_caps {History : Type} (items : list History)
    (history : History) :
  HistoryPanel.add_history items history = take 100 (history :: items)
  ∧ (length (HistoryPanel.add_history items history) ≤ 100)%nat
  ∧ head (HistoryPanel.add_history items history) = Some history.
Proof.
  unfold HistoryPanel.add_history.
  rewrite drop_excess_take by lia.
  split_and!; [done| |done]. rewrite length_take. lia.
Qed.

(** X25. The text of a history entry is the method in brackets and the
    URL, of which at most 50 characters are shown: a URL of up to 50
    characters as it is, a longer one as its first 47 characters and three
    dots. *)
Theorem history_item_text (method url : list N) :
  ∃ shown,
    HistoryItem.text method url = py "[" ++ method ++ py "] " ++ shown
    ∧ (length shown ≤ 50)%nat
    ∧ ((length url ≤ 50)%nat → shown = url)
    ∧ ((50 < length url)%nat →
       length shown = 50%nat ∧ shown = take 47 url ++ py "...").
Proof.
  unfold HistoryItem.text.
  destruct (Nat.ltb_spec 50 (length url)) as [Hgt|Hle].
  - exists (take 47 url ++ py "..."). split; [done|].
    assert (length (take 47 url ++ py "...") = 50%nat) as Hlen.
    { rewrite length_app, length_take.
      change (length (py "...")) with 3%nat. lia. }
    split_and!; [lia|intros; exfalso; lia|done].
  - exists url. split_and!; [done|lia|done|intros; exfalso; lia].
Qed.

Section digit_facts.

Lemma count_digits_spec (fuel : nat) (max_num digits : Z) :
  (1 ≤ max_num ≤ Z.of_nat fuel)%Z →
  ∃ k, (0 ≤ k)%Z
       ∧ CodeEditor.count_digits fuel max_num digits = (digits + k)%Z
       ∧ (10 ^ k ≤ max_num < 10 ^ (k + 1))%Z.
Proof.
  revert max_num digits.
  induction fuel as [|fuel IH]; intros max_num digits Hm; [lia|].
  cbn [CodeEditor.count_digits].
  destruct (Z.leb_spec 10 max_num) as [Hge|Hlt].
  - assert (Hdiv : (10 * (max_num / 10) ≤ max_num
                    < 10 * (max_num / 10) + 10)%Z).
    { pose proof (Z.div_mod max_num 10 ltac:(lia)) as Hdm.
      pose proof (Z.mod_pos_bound max_num 10 ltac:(lia)). lia. }
    destruct (IH (max_num / 10)%Z (digits + 1)%Z) as (k & Hk & Heq & Hlo & Hhi);
      [lia|].
    exists (k + 1)%Z. rewrite Heq.
    replace (k + 1 + 1)%Z with (Z.succ (k + 1)) by lia.
    replace (k + 1)%Z with (Z.succ k) in * by lia.
    rewrite !Z.pow_succ_r in * by lia. lia.
  - exists 0%Z.
    split_and!; rewrite ?Z.pow_0_r, ?Z.add_0_l, ?Z.pow_1_r; lia.
Qed.

End digit_facts.

(** X26. The width of the line-number area is 13 plus, for each decimal
    digit of the number of blocks (of 1 for an empty document), the width
    of the digit 9: the loop counts the digits of that number. *)
Theorem line_number_area_width_digits (block_count advance : Z) :
  ∃ digits,
    (1 ≤ digits)%Z
    ∧ (10 ^ (digits - 1) ≤ Z.max 1 block_count < 10 ^ digits)%Z
    ∧ CodeEditor.line_number_area_width block_count advance
      = (3 + advance * digits + 10)%Z.
Proof.
  unfold CodeEditor.line_number_area_width.
  destruct (count_digits_spec (Z.to_nat (Z.max 1 block_count))
              (Z.max 1 block_count) 1) as (k & Hk & -> & Hb); [lia|].
  exists (1 + k)%Z.
  replace (1 + k - 1)%Z with k by lia.
  replace (10 ^ (1 + k))%Z with (10 ^ (k + 1))%Z by (f_equal; lia).
  split_and!; [lia|lia|lia|done].
Qed.
